(** * Shallow embedding of [show_summary] (src/stock_trade_visualizer.py)

    The trade-history table handed to [show_summary] is a list of rows.
    Each row carries the three columns the function reads:
    取引 (trade type label), 約定日 (execution date) and
    受渡金額/決済損益 (settlement amount / realized P&L).

    pandas' [to_datetime(..., errors="coerce")] and
    [to_numeric(..., errors="coerce")] are library parsers; they are kept
    abstract as section variables returning [None] on an unparsable cell
    (NaT / NaN).  P&L amounts are yen and are modelled as [Z]; ratios and
    means, which pandas computes as float64, are modelled as [PyFloat]:
    an exact rational, NaN or an infinity. *)

From Stdlib Require Import Ascii String ZArith QArith Qabs List Bool Lia Sorting.Sorted Permutation.
Import ListNotations.
Open Scope Z_scope.

(** ** Python / numpy float values *)

Inductive PyFloat : Type :=
| Fin (q : Q)
| NaN
| Inf (neg : bool).

(** Python truthiness of a float: [if x] is false only for [0.0]. *)
Definition truthy (x : PyFloat) : bool :=
  match x with
  | Fin q => negb (Qeq_bool q 0)
  | NaN => true
  | Inf _ => true
  end.

Definition py_abs (x : PyFloat) : PyFloat :=
  match x with
  | Fin q => Fin (Qabs q)
  | NaN => NaN
  | Inf _ => Inf false
  end.

(** numpy float64 division (no exception on a zero divisor). *)
Definition py_div (x y : PyFloat) : PyFloat :=
  match x, y with
  | NaN, _ | _, NaN => NaN
  | Inf _, Inf _ => NaN
  | Fin _, Inf _ => Fin 0
  | Inf s, Fin b => if Qle_bool 0 b then Inf s else Inf (negb s)
  | Fin a, Fin b =>
      if Qeq_bool b 0 then
        (if Qeq_bool a 0 then NaN else Inf (negb (Qle_bool 0 a)))
      else Fin (a / b)
  end.

Definition QZ (z : Z) : Q := inject_Z z.

(** [Series.notna()] on one value. *)
Definition is_some {A} (o : option A) : bool :=
  match o with Some _ => true | None => false end.

(** ** Column helpers with pandas' NaN-skipping reductions *)

(** [Series.sum()]: missing values skipped, empty sum is [0]. *)
Fixpoint sum_skipna (xs : list (option Z)) : Z :=
  match xs with
  | [] => 0
  | Some x :: xs' => x + sum_skipna xs'
  | None :: xs' => sum_skipna xs'
  end.

(** [Series.count()]: number of non-missing values. *)
Fixpoint count_skipna (xs : list (option Z)) : Z :=
  match xs with
  | [] => 0
  | Some _ :: xs' => 1 + count_skipna xs'
  | None :: xs' => count_skipna xs'
  end.

(** [Series.mean()]: NaN when there is no non-missing value. *)
Definition mean_skipna (xs : list (option Z)) : PyFloat :=
  let n := count_skipna xs in
  if n =? 0 then NaN else Fin (QZ (sum_skipna xs) / QZ n).

(** [Series.min()]: [None] (NaN) when there is no non-missing value. *)
Fixpoint min_skipna (xs : list (option Z)) : option Z :=
  match xs with
  | [] => None
  | Some x :: xs' =>
      match min_skipna xs' with
      | Some m => Some (Z.min x m)
      | None => Some x
      end
  | None :: xs' => min_skipna xs'
  end.

(** Number of [true] values of a boolean column ([Series.sum()] on bools). *)
Definition count_true {A} (p : A -> bool) (xs : list A) : Z :=
  Z.of_nat (length (filter p xs)).

(** ** Substring test of [Series.str.contains] (the pattern 信用 has no
    regex metacharacter, so the regex match is a substring match). *)

Fixpoint str_contains (pat s : string) : bool :=
  String.prefix pat s ||
  match s with
  | EmptyString => false
  | String _ s' => str_contains pat s'
  end.

Definition shinyou : string := "信用".
Definition genbutsu : string := "現物".

(** [Series.astype(str)]: a missing label becomes the text ["nan"]. *)
Definition astype_str (v : option string) : string :=
  match v with
  | Some s => s
  | None => "nan"
  end.

(** ** Dates, date keys and month keys *)

Record Date : Type := mkDate { year : Z; month : Z; day : Z }.

(** [.dt.date]: the calendar date. *)
Definition date_cmp (a b : Date) : comparison :=
  match Z.compare (year a) (year b) with
  | Eq =>
      match Z.compare (month a) (month b) with
      | Eq => Z.compare (day a) (day b)
      | c => c
      end
  | c => c
  end.

(** [.dt.to_period("M")]: the calendar month. *)
Record Month : Type := mkMonth { p_year : Z; p_month : Z }.

Definition month_cmp (a b : Month) : comparison :=
  match Z.compare (p_year a) (p_year b) with
  | Eq => Z.compare (p_month a) (p_month b)
  | c => c
  end.

Definition to_period_M (d : Date) : Month := mkMonth (year d) (month d).

(** ** [DataFrame.groupby(key)]: groups sorted by key, rows of a group in
    table order, rows with a missing key dropped ([dropna=True]). *)

Section GroupBy.
Context {K A : Type}.
Variable cmp : K -> K -> comparison.
Variable key : A -> option K.

Fixpoint insert_group (k : K) (r : A) (gs : list (K * list A))
    : list (K * list A) :=
  match gs with
  | [] => [(k, [r])]
  | (k', rs) :: gs' =>
      match cmp k k' with
      | Eq => (k', rs ++ [r]) :: gs'
      | Lt => (k, [r]) :: gs
      | Gt => (k', rs) :: insert_group k r gs'
      end
  end.

Definition groupby_step (gs : list (K * list A)) (r : A) :=
  match key r with
  | Some k => insert_group k r gs
  | None => gs
  end.

Definition groupby (rows : list A) : list (K * list A) :=
  fold_left groupby_step rows [].

(** The rows of all groups, group after group. *)
Definition members (gs : list (K * list A)) : list A := concat (map snd gs).

(** [df[df[key] == k]]: whether a row's key is [k]. *)
Definition has_key (k : K) (r : A) : bool :=
  match key r with
  | Some k' => match cmp k' k with Eq => true | _ => false end
  | None => false
  end.
End GroupBy.

(** ** Rows after coercion (lines 25-26) and derived columns (lines 28-34) *)

(** A row once 約定日 went through [to_datetime] and 受渡金額/決済損益
    through [to_numeric]; [None] is NaT / NaN. *)
Record Trade : Type := mkTrade { t_date : option Date; t_pnl : option Z }.

(** 年月 *)
Definition nengetsu (t : Trade) : option Month := option_map to_period_M (t_date t).
(** 日付 *)
Definition hiduke (t : Trade) : option Date := t_date t.
(** 勝ち: [NaN > 0] is [False]. *)
Definition kachi (t : Trade) : bool :=
  match t_pnl t with Some p => 0 <? p | None => false end.
(** 負け: [NaN < 0] is [False]. *)
Definition make (t : Trade) : bool :=
  match t_pnl t with Some p => p <? 0 | None => false end.
(** 勝ち損益のみ: [pnl.where(勝ち)] *)
Definition kachi_only (t : Trade) : option Z := if kachi t then t_pnl t else None.
(** 負け損益のみ: [pnl.where(負け)] *)
Definition make_only (t : Trade) : option Z := if make t then t_pnl t else None.

(** ** One row of the daily / monthly table (lines 37-57) *)

Record Summary : Type := mkSummary {
  kachi_su : Z;                 (* 勝ち数 *)
  sou_torihiki_su : Z;          (* 総取引数 *)
  sou_soneki : Z;               (* 総損益 *)
  shouritsu : PyFloat;          (* 勝率 *)
  saidai_sonshitsu : option Z;  (* 最大損失 *)
  heikin_rieki : PyFloat;       (* 平均利益 *)
  heikin_sonshitsu : PyFloat;   (* 平均損失 *)
  heikin_soneki : PyFloat       (* 平均損益 *)
}.

(** The named aggregation applied to one group.  総取引数 is
    [("勝ち", "count")]: the boolean column 勝ち has no missing value, so it
    counts every row of the group.  勝率 is [(x.sum() / len(x)) * 100]. *)
Definition agg (g : list Trade) : Summary :=
  let wins := count_true kachi g in
  let n := Z.of_nat (length g) in
  {| kachi_su := wins;
     sou_torihiki_su := n;
     sou_soneki := sum_skipna (map t_pnl g);
     shouritsu := if n =? 0 then NaN else Fin (QZ wins / QZ n * QZ 100);
     saidai_sonshitsu := min_skipna (map t_pnl g);
     heikin_rieki := mean_skipna (map kachi_only g);
     heikin_sonshitsu := mean_skipna (map make_only g);
     heikin_soneki := mean_skipna (map t_pnl g) |}.

Definition agg_groups {K} (gs : list (K * list Trade)) : list (K * Summary) :=
  map (fun kg => (fst kg, agg (snd kg))) gs.

(** [daily = df.groupby("日付").agg(...)] *)
Definition daily (ts : list Trade) : list (Date * Summary) :=
  agg_groups (groupby date_cmp hiduke ts).

(** [monthly = df.groupby("年月").agg(...)] *)
Definition monthly (ts : list Trade) : list (Month * Summary) :=
  agg_groups (groupby month_cmp nengetsu ts).

(** ** 成績指標 (lines 91-104) *)

Definition avg_profit (ts : list Trade) : PyFloat := mean_skipna (map t_pnl (filter kachi ts)).
Definition avg_loss (ts : list Trade) : PyFloat := mean_skipna (map t_pnl (filter make ts)).
Definition total_profit (ts : list Trade) : Z := sum_skipna (map t_pnl (filter kachi ts)).
Definition total_loss (ts : list Trade) : Z := sum_skipna (map t_pnl (filter make ts)).

(** [avg_profit / abs(avg_loss) if avg_loss else None] *)
Definition payoff_ratio (ts : list Trade) : option PyFloat :=
  if truthy (avg_loss ts)
  then Some (py_div (avg_profit ts) (py_abs (avg_loss ts)))
  else None.

(** [total_profit / abs(total_loss) if total_loss else None] *)
Definition profit_factor (ts : list Trade) : option PyFloat :=
  let tl := total_loss ts in
  if negb (tl =? 0)
  then Some (py_div (Fin (QZ (total_profit ts))) (Fin (QZ (Z.abs tl))))
  else None.

(** What [st.metric] shows: [f"{v:.2f}" if v else "計算不可"]. *)
Inductive Display : Type :=
| Shown (x : PyFloat)
| NotComputable.

Definition metric_display (v : option PyFloat) : Display :=
  match v with
  | Some x => if truthy x then Shown x else NotComputable
  | None => NotComputable
  end.

(** ** 累積損益 (line 113): [daily["総損益"].cumsum()] *)

Fixpoint cumsum_from (acc : Z) (xs : list Z) : list Z :=
  match xs with
  | [] => []
  | x :: xs' => (acc + x) :: cumsum_from (acc + x) xs'
  end.

Definition cumsum (xs : list Z) : list Z := cumsum_from 0 xs.

Definition daily_totals (ts : list Trade) : list Z :=
  map (fun ks => sou_soneki (snd ks)) (daily ts).

Definition ruiseki (ts : list Trade) : list Z := cumsum (daily_totals ts).

Definition monthly_totals (ts : list Trade) : list Z :=
  map (fun ks => sou_soneki (snd ks)) (monthly ts).

Definition zsum (xs : list Z) : Z := fold_right Z.add 0 xs.

(** Total P&L of the rows where neither 約定日 nor the P&L is missing. *)
Definition nonmissing_total (ts : list Trade) : Z :=
  sum_skipna (map t_pnl (filter (fun t => is_some (t_date t) && is_some (t_pnl t)) ts)).

(** ** Everything [show_summary] computes from its table *)

Record Report : Type := mkReport {
  r_daily : list (Date * Summary);
  r_monthly : list (Month * Summary);
  r_payoff : option PyFloat;
  r_profit_factor : option PyFloat;
  r_payoff_display : Display;
  r_profit_factor_display : Display;
  r_ruiseki : list Z
}.

Definition summarize (ts : list Trade) : Report :=
  {| r_daily := daily ts;
     r_monthly := monthly ts;
     r_payoff := payoff_ratio ts;
     r_profit_factor := profit_factor ts;
     r_payoff_display := metric_display (payoff_ratio ts);
     r_profit_factor_display := metric_display (profit_factor ts);
     r_ruiseki := ruiseki ts |}.

Section ShowSummary.
Variable Cell : Type.
(** [pd.to_datetime(..., errors="coerce")] on one cell. *)
Variable to_datetime : Cell -> option Date.
(** [pd.to_numeric(..., errors="coerce")] on one cell. *)
Variable to_numeric : Cell -> option Z.

Record Row : Type := mkRow {
  torihiki : option string;   (* 取引 *)
  yakujoubi : Cell;           (* 約定日 *)
  kessai : Cell               (* 受渡金額/決済損益 *)
}.

(** Line 22: [df["取引"].astype(str).str.contains("信用", na=False)] *)
Definition is_margin (r : Row) : bool :=
  str_contains shinyou (astype_str (torihiki r)).

(** Lines 25-26 *)
Definition coerce (r : Row) : Trade :=
  {| t_date := to_datetime (yakujoubi r); t_pnl := to_numeric (kessai r) |}.

(** The table every aggregate of [show_summary] is computed from. *)
Definition filtered (df : list Row) : list Trade :=
  map coerce (filter is_margin df).

Definition show_summary (df : list Row) : Report :=
  summarize (filtered df).
End ShowSummary.

Arguments mkRow {Cell}.
Arguments torihiki {Cell}.
Arguments yakujoubi {Cell}.
Arguments kessai {Cell}.
Arguments is_margin {Cell}.
Arguments coerce {Cell}.
Arguments filtered {Cell}.
Arguments show_summary {Cell}.

(** ** Sample cell parsers for concrete tables

    CSV cells as text; [sample_to_numeric] reads an optionally negative
    decimal integer and [sample_to_datetime] reads [YYYY-MM-DD]; any other
    text is unparsable, as with [errors="coerce"]. *)

Definition digit_val (c : Ascii.ascii) : option Z :=
  let n := Z.of_nat (Ascii.nat_of_ascii c) - 48 in
  if (0 <=? n) && (n <=? 9) then Some n else None.

Fixpoint digits_from (acc : Z) (s : string) : option Z :=
  match s with
  | EmptyString => Some acc
  | String c s' =>
      match digit_val c with
      | Some d => digits_from (acc * 10 + d) s'
      | None => None
      end
  end.

Definition parse_nat_text (s : string) : option Z :=
  match s with
  | EmptyString => None
  | _ => digits_from 0 s
  end.

Definition sample_to_numeric (s : string) : option Z :=
  match s with
  | String "-"%char s' => option_map Z.opp (parse_nat_text s')
  | _ => parse_nat_text s
  end.

Definition sample_to_datetime (s : string) : option Date :=
  if (String.length s =? 10)%nat
     && (String.substring 4 1 s =? "-")%string && (String.substring 7 1 s =? "-")%string
  then
    match parse_nat_text (String.substring 0 4 s),
          parse_nat_text (String.substring 5 2 s),
          parse_nat_text (String.substring 8 2 s) with
    | Some y, Some m, Some d =>
        if (1 <=? m) && (m <=? 12) && (1 <=? d) && (d <=? 31)
        then Some (mkDate y m d) else None
    | _, _, _ => None
    end
  else None.

Definition sample_show_summary (df : list (Row string)) : Report :=
  show_summary sample_to_datetime sample_to_numeric df.

Definition margin_row (date pnl : string) : Row string :=
  mkRow (Some "信用返済売"%string) date pnl.

Arguments margin_row (date pnl)%_string_scope.

(** The three trades of the spec's worked example. *)
Definition example_table : list (Row string) :=
  [margin_row "2025-01-01" "1000"; margin_row "2025-01-01" "-400";
   margin_row "2025-01-02" "300"].

Definition one_win_table : list (Row string) := [margin_row "2025-01-01" "1000"].

Definition one_loss_table : list (Row string) := [margin_row "2025-01-01" "-400"].

(** A dated margin trade whose P&L cell is not a number. *)
Definition unparsable_pnl_table : list (Row string) := [margin_row "2025-01-01" "abc"].

(** A margin row with neither a date nor a number. *)
Definition garbage_row : Row string := margin_row "n/a" "abc".

Definition cash_row : Row string := mkRow (Some genbutsu) "2025-01-01"%string "1000"%string.

(** * Table colouring: [color_profit_normalized] (lines 5-19) *)

(** Python [a < b] on floats: false as soon as one side is NaN. *)
Definition py_lt (a b : PyFloat) : bool :=
  match a, b with
  | NaN, _ | _, NaN => false
  | Fin x, Fin y => negb (Qle_bool y x)
  | Inf true, Inf s => negb s
  | Inf true, Fin _ => true
  | Inf false, _ => false
  | Fin _, Inf s => negb s
  end.

(** Python [a != b] on floats: true when one side is NaN. *)
Definition py_ne (a b : PyFloat) : bool :=
  match a, b with
  | Fin x, Fin y => negb (Qeq_bool x y)
  | Inf s, Inf s' => negb (Bool.eqb s s')
  | _, _ => true
  end.

(** Python's builtin [min(a, b)]: [b] only when [b < a], else [a]. *)
Definition py_min (a b : PyFloat) : PyFloat := if py_lt b a then b else a.

Definition alpha_cap : PyFloat := Fin (2 # 5).   (* 0.4 *)

(** A cell value of the styled table. *)
Inductive PyVal : Type :=
| PNum (x : PyFloat)
| PText (s : string).

(** The CSS the function returns: [''], a green or a red background with
    the given opacity. *)
Inductive CellStyle : Type :=
| NoStyle
| Green (alpha : PyFloat)
| Red (alpha : PyFloat).

Section Color.
(** [float(s)] on a text cell: [None] when it raises. *)
Variable float_str : string -> option PyFloat.

Definition py_float (v : PyVal) : option PyFloat :=
  match v with
  | PNum x => Some x
  | PText s => float_str s
  end.

Definition color_profit_normalized (v : PyVal) (max_abs : PyFloat) : CellStyle :=
  match py_float v with
  | None => NoStyle
  | Some val =>
      let ratio := if py_ne max_abs (Fin 0) then py_div (py_abs val) max_abs else Fin 0 in
      let alpha := py_min alpha_cap ratio in
      if py_lt (Fin 0) val then Green alpha
      else if py_lt val (Fin 0) then Red alpha
      else NoStyle
  end.
End Color.

(** [daily["総損益"].abs().max()]: NaN on an empty table. *)
Fixpoint zmax_abs (xs : list Z) : option Z :=
  match xs with
  | [] => None
  | x :: xs' =>
      match zmax_abs xs' with
      | Some m => Some (Z.max (Z.abs x) m)
      | None => Some (Z.abs x)
      end
  end.

Definition max_abs_of (xs : list Z) : PyFloat :=
  match zmax_abs xs with
  | Some m => Fin (QZ m)
  | None => NaN
  end.

(** [.applymap(lambda v: color_profit_normalized(v, max_abs), subset=["総損益"])]
    on a 総損益 column [tot], with [max_abs = tot.abs().max()] (lines 60-61,
    74, 87); the cells are numbers, so the [float_str] branch is not taken. *)
Definition total_styles (float_str : string -> option PyFloat) (tot : list Z)
    : list CellStyle :=
  map (fun v => color_profit_normalized float_str (PNum (Fin (QZ v))) (max_abs_of tot)) tot.

(** The opacity a style carries, if any. *)
Definition style_alpha (c : CellStyle) : option PyFloat :=
  match c with
  | NoStyle => None
  | Green a | Red a => Some a
  end.

Definition daily_styles (float_str : string -> option PyFloat) (ts : list Trade) :=
  total_styles float_str (daily_totals ts).

Definition monthly_styles (float_str : string -> option PyFloat) (ts : list Trade) :=
  total_styles float_str (monthly_totals ts).

(** Whether a date falls in month [m] (the 年月 of that date is [m]). *)
Definition in_month (m : Month) (d : Date) : bool :=
  match month_cmp (to_period_M d) m with Eq => true | _ => false end.

(** A small coerced table: two January days and one February day. *)
Definition sample_trades : list Trade :=
  [mkTrade (Some (mkDate 2025 1 6)) (Some 1000);
   mkTrade (Some (mkDate 2025 1 6)) (Some (-400));
   mkTrade (Some (mkDate 2025 1 7)) (Some 250);
   mkTrade (Some (mkDate 2025 2 3)) (Some (-100))].

(** * Loading the uploaded file (src/app.py, lines 27-56) *)

Definition yakujoubi_label : string := "約定日".

(** Line 31 *)
Definition encodings : list string := ["utf-8"%string; "cp932"%string; "shift_jis"%string].

Definition newline : string := String (Ascii.ascii_of_nat 10) EmptyString.

(** ["\n".join(lines)] *)
Fixpoint join_lines (lines : list string) : string :=
  match lines with
  | [] => EmptyString
  | [l] => l
  | l :: ls => (l ++ newline ++ join_lines ls)%string
  end.

Section Upload.
(** The uploaded bytes. *)
Variable Content : Type.
(** [content.decode(enc)]: [None] when it raises [UnicodeDecodeError]. *)
Variable decode : string -> Content -> option string.
(** [str.splitlines()] *)
Variable splitlines : string -> list string.
(** The DataFrame [pd.read_csv] returns. *)
Variable Frame : Type.
(** [pd.read_csv(io.StringIO(text), skiprows=n)] *)
Variable read_csv : string -> nat -> Frame.

(** Lines 31-39: the first encoding that decodes wins ([break]); the
    [else] branch of the loop runs when none does. *)
Fixpoint decode_lines (encs : list string) (c : Content) : option (list string) :=
  match encs with
  | [] => None
  | enc :: encs' =>
      match decode enc c with
      | Some text => Some (splitlines text)
      | None => decode_lines encs' c
      end
  end.

(** Lines 42-46: [enumerate] from [i], stopping at the first line that
    contains 約定日. *)
Fixpoint find_header_from (i : nat) (lines : list string) : option nat :=
  match lines with
  | [] => None
  | line :: lines' =>
      if str_contains yakujoubi_label line then Some i
      else find_header_from (S i) lines'
  end.

Definition find_header (lines : list string) : option nat := find_header_from 0 lines.

(** What the page ends with: one of the two [st.error] + [st.stop()]
    branches, or the table read from the header row on, together with the
    row number the success message shows (line 54). *)
Inductive Outcome : Type :=
| DecodeFailed
| HeaderNotFound
| Loaded (lines : list string) (reported_row : nat) (df : Frame).

Definition upload (content : Content) : Outcome :=
  match decode_lines encodings content with
  | None => DecodeFailed
  | Some lines =>
      match find_header lines with
      | None => HeaderNotFound
      | Some header_row_index =>
          Loaded lines (header_row_index + 1)
                 (read_csv (join_lines lines) header_row_index)
      end
  end.
End Upload.

Arguments DecodeFailed {Frame}.
Arguments HeaderNotFound {Frame}.
Arguments Loaded {Frame}.

(** * Facts about the model *)

(** ** [groupby] *)

Section GroupByFacts.
Context {K A : Type}.
Variable cmp : K -> K -> comparison.
Variable key : A -> option K.

Lemma insert_group_perm k (r : A) (gs : list (K * list A)) :
  Permutation (members (insert_group cmp k r gs)) (r :: members gs).
Proof.
  induction gs as [|[k' rs] gs' IH]; simpl; [reflexivity|].
  unfold members in *; destruct (cmp k k'); simpl.
  - rewrite <- app_assoc; simpl; apply Permutation_sym, Permutation_middle.
  - reflexivity.
  - rewrite IH; apply Permutation_sym, Permutation_middle.
Qed.

Lemma groupby_perm_from (rows : list A) (gs : list (K * list A)) :
  Permutation (members (fold_left (groupby_step cmp key) rows gs))
              (members gs ++ filter (fun r => is_some (key r)) rows).
Proof.
  revert gs; induction rows as [|r rows IH]; intros gs; simpl.
  - rewrite app_nil_r; reflexivity.
  - rewrite IH; unfold groupby_step.
    destruct (key r) as [k|]; simpl.
    + rewrite insert_group_perm; simpl.
      apply Permutation_middle.
    + reflexivity.
Qed.

Lemma groupby_perm (rows : list A) :
  Permutation (members (groupby cmp key rows)) (filter (fun r => is_some (key r)) rows).
Proof. apply groupby_perm_from. Qed.

Lemma insert_group_nonempty k (r : A) (gs : list (K * list A)) :
  Forall (fun kg => snd kg <> []) gs ->
  Forall (fun kg => snd kg <> []) (insert_group cmp k r gs).
Proof.
  induction gs as [|[k' rs] gs' IH]; intros H; simpl.
  - constructor; [discriminate | constructor].
  - inversion H as [|x l Hx Hl]; subst.
    destruct (cmp k k'); constructor; simpl; auto.
    + destruct rs; discriminate.
    + discriminate.
Qed.

Lemma groupby_nonempty (rows : list A) :
  Forall (fun kg => snd kg <> []) (groupby cmp key rows).
Proof.
  unfold groupby.
  assert (Hgen : forall gs : list (K * list A), Forall (fun kg => snd kg <> []) gs ->
            Forall (fun kg => snd kg <> []) (fold_left (groupby_step cmp key) rows gs)).
  { induction rows as [|r rows IH]; intros gs Hgs; simpl; [exact Hgs|].
    apply IH; unfold groupby_step; destruct (key r); auto using insert_group_nonempty. }
  apply Hgen; constructor.
Qed.

Hypothesis cmp_antisym : forall a b, cmp a b = Gt -> cmp b a = Lt.

Let R := fun a b => cmp a b = Lt.

Lemma insert_group_hd x k (r : A) (gs : list (K * list A)) :
  HdRel R x (map fst gs) -> R x k -> HdRel R x (map fst (insert_group cmp k r gs)).
Proof.
  destruct gs as [|[k' rs] gs']; simpl; intros H1 H2.
  - constructor; exact H2.
  - destruct (cmp k k'); simpl; try assumption; constructor;
      [exact H2 | apply HdRel_inv in H1; exact H1].
Qed.

Lemma insert_group_sorted k (r : A) (gs : list (K * list A)) :
  Sorted R (map fst gs) -> Sorted R (map fst (insert_group cmp k r gs)).
Proof.
  induction gs as [|[k' rs] gs' IH]; simpl; intros H.
  - repeat constructor.
  - apply Sorted_inv in H as [Hs Hh].
    destruct (cmp k k') eqn:E; simpl.
    + constructor; assumption.
    + constructor; [constructor; assumption | constructor; exact E].
    + constructor; [apply IH; exact Hs|].
      apply insert_group_hd; [exact Hh | apply cmp_antisym; exact E].
Qed.

Lemma groupby_sorted (rows : list A) : Sorted R (map fst (groupby cmp key rows)).
Proof.
  unfold groupby.
  assert (Hgen : forall gs : list (K * list A), Sorted R (map fst gs) ->
            Sorted R (map fst (fold_left (groupby_step cmp key) rows gs))).
  { induction rows as [|r rows IH]; intros gs Hgs; simpl; [exact Hgs|].
    apply IH; unfold groupby_step; destruct (key r); auto using insert_group_sorted. }
  apply Hgen; constructor.
Qed.
End GroupByFacts.

(** ** NaN-skipping sums *)

Lemma sum_skipna_app xs ys : sum_skipna (xs ++ ys) = sum_skipna xs + sum_skipna ys.
Proof. induction xs as [|[x|] xs IH]; simpl; lia. Qed.

Lemma sum_skipna_perm xs ys : Permutation xs ys -> sum_skipna xs = sum_skipna ys.
Proof.
  induction 1 as [| [x|] ? ? ? IH | [x|] [y|] ? | ]; simpl; lia.
Qed.

Lemma zsum_agg_groups {K} (gs : list (K * list Trade)) :
  zsum (map (fun ks => sou_soneki (snd ks)) (agg_groups gs)) = sum_skipna (map t_pnl (members gs)).
Proof.
  induction gs as [|[k g] gs IH]; simpl; [reflexivity|].
  unfold members in *; simpl; rewrite map_app, sum_skipna_app.
  unfold zsum in *; simpl; rewrite IH; reflexivity.
Qed.

Lemma dated_total ts :
  sum_skipna (map t_pnl (filter (fun t => is_some (t_date t)) ts)) = nonmissing_total ts.
Proof.
  unfold nonmissing_total.
  induction ts as [|[[d|] [p|]] ts IH]; simpl; try rewrite IH; reflexivity.
Qed.

Lemma month_key_dated (ts : list Trade) :
  filter (fun t => is_some (nengetsu t)) ts = filter (fun t => is_some (hiduke t)) ts.
Proof.
  induction ts as [|[[d|] p] ts IH]; simpl; rewrite ?IH; reflexivity.
Qed.

Lemma daily_total_all ts : zsum (daily_totals ts) = nonmissing_total ts.
Proof.
  unfold daily_totals, daily; rewrite zsum_agg_groups.
  rewrite (sum_skipna_perm _ _ (Permutation_map t_pnl (groupby_perm date_cmp hiduke ts))).
  apply dated_total.
Qed.

Lemma monthly_total_all ts : zsum (monthly_totals ts) = nonmissing_total ts.
Proof.
  unfold monthly_totals, monthly; rewrite zsum_agg_groups.
  rewrite (sum_skipna_perm _ _ (Permutation_map t_pnl (groupby_perm month_cmp nengetsu ts))).
  rewrite month_key_dated; apply dated_total.
Qed.

(** ** Running sums *)

Lemma cumsum_from_length acc xs : length (cumsum_from acc xs) = length xs.
Proof. revert acc; induction xs as [|x xs IH]; intros acc; simpl; auto. Qed.

Lemma cumsum_from_step acc xs i :
  (S i < length xs)%nat ->
  nth (S i) (cumsum_from acc xs) 0 = nth i (cumsum_from acc xs) 0 + nth (S i) xs 0.
Proof.
  revert acc i; induction xs as [|x xs IH]; intros acc i Hi; simpl in *; [lia|].
  destruct i as [|i].
  - destruct xs as [|y xs]; simpl in *; [lia | reflexivity].
  - rewrite (IH (acc + x) i) by lia; reflexivity.
Qed.

Lemma cumsum_from_last acc xs :
  xs <> [] -> last (cumsum_from acc xs) 0 = acc + zsum xs.
Proof.
  revert acc; induction xs as [|x xs IH]; intros acc Hne; [congruence|].
  destruct xs as [|y xs']; simpl; [unfold zsum; simpl; lia|].
  change (last (cumsum_from (acc + x) (y :: xs')) 0 = acc + (x + zsum (y :: xs'))).
  rewrite IH by discriminate; lia.
Qed.

(** ** Keys *)

Lemma date_cmp_antisym a b : date_cmp a b = Gt -> date_cmp b a = Lt.
Proof.
  unfold date_cmp.
  rewrite (Z.compare_antisym (year b)), (Z.compare_antisym (month b)),
          (Z.compare_antisym (day b)).
  destruct (year b ?= year a), (month b ?= month a), (day b ?= day a);
    simpl; congruence.
Qed.

Lemma month_cmp_antisym a b : month_cmp a b = Gt -> month_cmp b a = Lt.
Proof.
  unfold month_cmp.
  rewrite (Z.compare_antisym (p_year b)), (Z.compare_antisym (p_month b)).
  destruct (p_year b ?= p_year a), (p_month b ?= p_month a); simpl; congruence.
Qed.

Lemma in_agg_groups {K} (gs : list (K * list Trade)) k s :
  In (k, s) (agg_groups gs) -> exists g, In (k, g) gs /\ s = agg g.
Proof.
  unfold agg_groups; rewrite in_map_iff.
  intros [[k' g] [E Hin]]; simpl in E; inversion E; subst; eauto.
Qed.

Lemma in_groupby_nonempty {K A} cmp key (rows : list A) (k : K) g :
  In (k, g) (groupby cmp key rows) -> g <> [].
Proof.
  intros Hin.
  pose proof (groupby_nonempty cmp key rows) as H.
  rewrite Forall_forall in H; exact (H (k, g) Hin).
Qed.

(** ** 勝率 *)

Lemma count_true_bounds {A} (p : A -> bool) xs :
  0 <= count_true p xs <= Z.of_nat (length xs).
Proof.
  unfold count_true; induction xs as [|x xs IH]; simpl; [lia|].
  destruct (p x); simpl; lia.
Qed.

Lemma win_rate_bounds (w n : Z) :
  0 <= w <= n -> 0 < n ->
  (0 <= QZ w / QZ n * QZ 100 /\ QZ w / QZ n * QZ 100 <= 100)%Q.
Proof.
  intros Hw Hn; destruct n as [|p|p]; try lia.
  unfold QZ, inject_Z, Qdiv, Qle; simpl.
  rewrite ?Pos2Z.inj_mul; split; nia.
Qed.

Lemma agg_shouritsu g :
  g <> [] ->
  exists q, shouritsu (agg g) = Fin q /\
    (q == QZ (count_true kachi g) / QZ (Z.of_nat (length g)) * QZ 100 /\
     0 <= q <= 100)%Q.
Proof.
  intros Hne; destruct g as [|t g]; [congruence|].
  set (n := Z.of_nat (length (t :: g))).
  assert (Hn : 0 < n) by (unfold n; simpl; lia).
  exists (QZ (count_true kachi (t :: g)) / QZ n * QZ 100)%Q; split; [|split].
  - unfold agg; simpl shouritsu; fold n.
    destruct (n =? 0) eqn:E; [apply Z.eqb_eq in E; lia | reflexivity].
  - reflexivity.
  - apply win_rate_bounds; [|exact Hn].
    apply count_true_bounds.
Qed.

(** ** 最大損失 *)

Lemma min_skipna_spec xs m :
  min_skipna xs = Some m ->
  In (Some m) xs /\ forall x, In (Some x) xs -> m <= x.
Proof.
  revert m; induction xs as [|[x|] xs IH]; intros m H; simpl in H; try discriminate.
  - destruct (min_skipna xs) as [m'|] eqn:E; inversion H; subst; clear H.
    + destruct (IH m' eq_refl) as [Hin Hle].
      split.
      * destruct (Z.min_spec x m') as [[_ ->]|[_ ->]]; simpl; auto.
      * intros y [Hy|Hy]; [inversion Hy; lia | specialize (Hle y Hy); lia].
    + split; [left; reflexivity|].
      intros y [Hy|Hy]; [inversion Hy; lia|].
      exfalso; clear IH; induction xs as [|[z|] xs IHx]; simpl in *;
        [assumption | destruct (min_skipna xs); discriminate |].
      destruct Hy as [Hy|Hy]; [discriminate | auto].
  - destruct (IH m H) as [Hin Hle]; split; [right; exact Hin|].
    intros y [Hy|Hy]; [discriminate | auto].
Qed.

Lemma min_skipna_positive xs :
  xs <> [] -> (forall o, In o xs -> exists x, o = Some x /\ 0 < x) ->
  exists m, min_skipna xs = Some m /\ 0 < m.
Proof.
  induction xs as [|o xs IH]; intros Hne Hall; [congruence|].
  destruct (Hall o (or_introl eq_refl)) as [x [-> Hx]]; simpl.
  destruct xs as [|o' xs'].
  - exists x; auto.
  - destruct IH as [m [Em Hm]]; [discriminate | intros o'' Ho; apply Hall; right; exact Ho |].
    rewrite Em; exists (Z.min x m); split; [reflexivity | lia].
Qed.

(** ** Subset means (平均利益, 平均損失, avg_profit, avg_loss) *)

Lemma count_skipna_app xs ys : count_skipna (xs ++ ys) = count_skipna xs + count_skipna ys.
Proof. induction xs as [|[x|] xs IH]; cbn [app count_skipna]; lia. Qed.

Section SubsetMean.
Variable p : Trade -> bool.
Variable only : Trade -> option Z.
Hypothesis only_def : forall t, only t = if p t then t_pnl t else None.
Hypothesis p_present : forall t, p t = true -> is_some (t_pnl t) = true.

Lemma subset_sum g : sum_skipna (map only g) = sum_skipna (map t_pnl (filter p g)).
Proof.
  induction g as [|t g IH]; simpl; [reflexivity|].
  rewrite only_def; destruct (p t); simpl; [|exact IH].
  destruct (t_pnl t); simpl; rewrite IH; reflexivity.
Qed.

Lemma subset_count g : count_skipna (map t_pnl (filter p g)) = count_true p g.
Proof.
  unfold count_true; induction g as [|t g IH]; simpl; [reflexivity|].
  destruct (p t) eqn:E; cbn [map length]; [|exact IH].
  specialize (p_present t E); destruct (t_pnl t); cbn [count_skipna is_some] in *;
    [lia | discriminate].
Qed.

Lemma subset_count' g : count_skipna (map only g) = count_true p g.
Proof.
  rewrite <- subset_count; induction g as [|t g IH]; simpl; [reflexivity|].
  rewrite only_def; destruct (p t); simpl; [|exact IH].
  destruct (t_pnl t); simpl; rewrite IH; reflexivity.
Qed.

Lemma subset_mean g : mean_skipna (map only g) = mean_skipna (map t_pnl (filter p g)).
Proof.
  unfold mean_skipna; rewrite subset_sum, subset_count', subset_count; reflexivity.
Qed.

Lemma subset_mean_nan g : mean_skipna (map t_pnl (filter p g)) = NaN <-> filter p g = [].
Proof.
  unfold mean_skipna; rewrite subset_count; unfold count_true.
  destruct (filter p g) as [|t l]; simpl; [split; reflexivity|].
  destruct (Z.of_nat (S (length l)) =? 0) eqn:E; [apply Z.eqb_eq in E; lia|].
  split; discriminate.
Qed.
End SubsetMean.

Lemma kachi_present t : kachi t = true -> is_some (t_pnl t) = true.
Proof. unfold kachi; destruct (t_pnl t); [reflexivity | discriminate]. Qed.

Lemma make_present t : make t = true -> is_some (t_pnl t) = true.
Proof. unfold make; destruct (t_pnl t); [reflexivity | discriminate]. Qed.

Lemma heikin_rieki_subset g : heikin_rieki (agg g) = mean_skipna (map t_pnl (filter kachi g)).
Proof. apply (subset_mean kachi kachi_only (fun t => eq_refl) kachi_present). Qed.

Lemma heikin_sonshitsu_subset g : heikin_sonshitsu (agg g) = mean_skipna (map t_pnl (filter make g)).
Proof. apply (subset_mean make make_only (fun t => eq_refl) make_present). Qed.

(** ** 成績指標 *)

Lemma total_profit_no_wins ts : filter kachi ts = [] -> total_profit ts = 0.
Proof. unfold total_profit; intros ->; reflexivity. Qed.

Lemma total_loss_negative ts : filter make ts <> [] -> total_loss ts < 0.
Proof.
  unfold total_loss; induction ts as [|t ts IH]; cbn [filter]; intros Hne; [congruence|].
  destruct (make t) eqn:E; [|auto].
  unfold make in E; destruct (t_pnl t) as [x|] eqn:P; [|discriminate].
  apply Z.ltb_lt in E; cbn [map sum_skipna]; rewrite P.
  destruct (filter make ts) as [|t0 l] eqn:F; [cbn [map sum_skipna]; lia|].
  specialize (IH ltac:(discriminate)); lia.
Qed.

Lemma total_loss_no_losses ts : filter make ts = [] -> total_loss ts = 0.
Proof. unfold total_loss; intros ->; reflexivity. Qed.

Lemma avg_loss_no_losses ts : filter make ts = [] -> avg_loss ts = NaN.
Proof. unfold avg_loss; intros ->; reflexivity. Qed.

(** ** Skipping a row *)

Lemma groupby_skip {K A} cmp key (pre post : list A) (r : A) :
  key r = None ->
  groupby (K:=K) cmp key (pre ++ r :: post) = groupby cmp key (pre ++ post).
Proof.
  intros H; unfold groupby; rewrite !fold_left_app; simpl.
  unfold groupby_step at 2; rewrite H; reflexivity.
Qed.

Lemma min_skipna_skip xs ys : min_skipna (xs ++ None :: ys) = min_skipna (xs ++ ys).
Proof. induction xs as [|[x|] xs IH]; simpl; rewrite ?IH; reflexivity. Qed.

Lemma mean_skipna_skip xs ys : mean_skipna (xs ++ None :: ys) = mean_skipna (xs ++ ys).
Proof.
  unfold mean_skipna.
  rewrite !sum_skipna_app, !count_skipna_app; simpl; reflexivity.
Qed.

Lemma count_true_skip {A} (p : A -> bool) xs x ys :
  p x = false -> count_true p (xs ++ x :: ys) = count_true p (xs ++ ys).
Proof. intros H; unfold count_true; rewrite !filter_app; simpl; rewrite H; reflexivity. Qed.

Lemma filter_skip {A} (p : A -> bool) xs x ys :
  p x = false -> filter p (xs ++ x :: ys) = filter p (xs ++ ys).
Proof. intros H; rewrite !filter_app; simpl; rewrite H; reflexivity. Qed.

Lemma subset_sum_insert (p : Trade -> bool) xs t ys :
  sum_skipna (map t_pnl (filter p (xs ++ t :: ys))) =
  sum_skipna (map t_pnl (filter p (xs ++ ys))) + sum_skipna [if p t then t_pnl t else None].
Proof.
  rewrite !filter_app; cbn [filter]; destruct (p t);
    rewrite !map_app, !sum_skipna_app; cbn [map sum_skipna];
    [destruct (t_pnl t)|]; lia.
Qed.

(** A row whose P&L is missing leaves every field of its group's row
    unchanged except the trade count (and so the win-rate denominator). *)
Lemma agg_skip_missing_pnl g1 g2 t :
  t_pnl t = None ->
  let s := agg (g1 ++ t :: g2) in
  let s' := agg (g1 ++ g2) in
  kachi_su s = kachi_su s' /\ sou_soneki s = sou_soneki s' /\
  saidai_sonshitsu s = saidai_sonshitsu s' /\ heikin_rieki s = heikin_rieki s' /\
  heikin_sonshitsu s = heikin_sonshitsu s' /\ heikin_soneki s = heikin_soneki s' /\
  sou_torihiki_su s = sou_torihiki_su s' + 1.
Proof.
  intros H s s'; subst s s'; unfold agg; cbn [kachi_su sou_soneki saidai_sonshitsu
    heikin_rieki heikin_sonshitsu heikin_soneki sou_torihiki_su].
  assert (Hk : kachi t = false) by (unfold kachi; rewrite H; reflexivity).
  assert (Hm : make t = false) by (unfold make; rewrite H; reflexivity).
  assert (Hko : kachi_only t = None) by (unfold kachi_only; rewrite Hk; reflexivity).
  assert (Hmo : make_only t = None) by (unfold make_only; rewrite Hm; reflexivity).
  rewrite !map_app; cbn [map]; rewrite H, Hko, Hmo.
  rewrite (count_true_skip kachi g1 t g2 Hk), min_skipna_skip, !mean_skipna_skip.
  rewrite !sum_skipna_app; cbn [sum_skipna].
  rewrite !length_app; cbn [length].
  repeat split; lia.
Qed.

(** 最大損失 of one group. *)
Lemma agg_saidai g :
  g <> [] ->
  saidai_sonshitsu (agg g) = min_skipna (map t_pnl g) /\
  (forall m, saidai_sonshitsu (agg g) = Some m ->
     (exists t, In t g /\ t_pnl t = Some m) /\
     forall t p, In t g -> t_pnl t = Some p -> m <= p) /\
  ((forall t, In t g -> kachi t = true) ->
     exists m, saidai_sonshitsu (agg g) = Some m /\ 0 < m).
Proof.
  intros Hne; split; [reflexivity|split].
  - intros m Hm; destruct (min_skipna_spec _ _ Hm) as [Hin Hle]; split.
    + apply in_map_iff in Hin as [t [Ht Hin]]; eauto.
    + intros t p Ht Hp; apply Hle; rewrite <- Hp; apply in_map; exact Ht.
  - intros Hall; apply min_skipna_positive.
    + destruct g; [congruence | discriminate].
    + intros o Ho; apply in_map_iff in Ho as [t [<- Ht]].
      specialize (Hall t Ht); unfold kachi in Hall.
      destruct (t_pnl t) as [p|]; [|discriminate].
      exists p; split; [reflexivity | apply Z.ltb_lt; exact Hall].
Qed.

Section Claims.
Variable Cell : Type.
Variable to_datetime : Cell -> option Date.
Variable to_numeric : Cell -> option Z.

Local Abbreviation show := (show_summary to_datetime to_numeric).
Local Abbreviation data := (filtered to_datetime to_numeric).

Lemma filtered_app df1 df2 : data (df1 ++ df2) = data df1 ++ data df2.
Proof. unfold filtered; rewrite filter_app, map_app; reflexivity. Qed.

Lemma filtered_insert df1 r df2 :
  is_margin r = true ->
  data (df1 ++ r :: df2) = data df1 ++ coerce to_datetime to_numeric r :: data df2.
Proof.
  intros H; unfold filtered; rewrite filter_app, map_app; simpl; rewrite H; reflexivity.
Qed.

(** C1 (payoff ratio and profit factor with zero losing trades): when the
    filtered table has no losing row, the profit factor is shown as
    計算不可, but the payoff ratio is NaN ([avg_loss] is the NaN mean of an
    empty series, which is truthy) and is shown as a number. *)
Theorem payoff_ratio_nan_without_losses (df : list (Row Cell)) :
  filter make (data df) = [] ->
  r_payoff (show df) = Some NaN /\ r_payoff_display (show df) = Shown NaN /\
  r_profit_factor (show df) = None /\ r_profit_factor_display (show df) = NotComputable.
Proof.
  intros H; unfold show_summary, summarize; cbn [r_payoff r_payoff_display
    r_profit_factor r_profit_factor_display].
  unfold payoff_ratio, profit_factor.
  rewrite (avg_loss_no_losses _ H), (total_loss_no_losses _ H); simpl.
  destruct (avg_profit (data df)); repeat split.
Qed.

(** C2 (amended: what a cell that fails to parse does): a margin row
    whose 約定日 is unparsable is in no daily or monthly group and not in
    the cumulative series, yet its P&L still enters the total profit and
    total loss of the scalar ratios; a margin row whose P&L is unparsable
    changes neither ratio, and in its group it changes no field except the
    trade count, which grows by one. *)
Theorem coerced_missing_cells (df1 df2 : list (Row Cell)) (r : Row Cell) :
  is_margin r = true ->
  (to_datetime (yakujoubi r) = None ->
     r_daily (show (df1 ++ r :: df2)) = r_daily (show (df1 ++ df2)) /\
     r_monthly (show (df1 ++ r :: df2)) = r_monthly (show (df1 ++ df2)) /\
     r_ruiseki (show (df1 ++ r :: df2)) = r_ruiseki (show (df1 ++ df2)) /\
     total_profit (data (df1 ++ r :: df2)) =
       total_profit (data (df1 ++ df2)) + sum_skipna [kachi_only (coerce to_datetime to_numeric r)] /\
     total_loss (data (df1 ++ r :: df2)) =
       total_loss (data (df1 ++ df2)) + sum_skipna [make_only (coerce to_datetime to_numeric r)]) /\
  (to_numeric (kessai r) = None ->
     r_payoff (show (df1 ++ r :: df2)) = r_payoff (show (df1 ++ df2)) /\
     r_profit_factor (show (df1 ++ r :: df2)) = r_profit_factor (show (df1 ++ df2)) /\
     forall g1 g2,
       let s := agg (g1 ++ coerce to_datetime to_numeric r :: g2) in
       let s' := agg (g1 ++ g2) in
       kachi_su s = kachi_su s' /\ sou_soneki s = sou_soneki s' /\
       saidai_sonshitsu s = saidai_sonshitsu s' /\ heikin_rieki s = heikin_rieki s' /\
       heikin_sonshitsu s = heikin_sonshitsu s' /\ heikin_soneki s = heikin_soneki s' /\
       sou_torihiki_su s = sou_torihiki_su s' + 1).
Proof.
  intros Hm; unfold show_summary, summarize;
    cbn [r_daily r_monthly r_ruiseki r_payoff r_profit_factor].
  rewrite (filtered_insert _ _ _ Hm), filtered_app.
  set (t := coerce to_datetime to_numeric r).
  split.
  - intros Hd.
    assert (Hh : hiduke t = None) by exact Hd.
    assert (Hn : nengetsu t = None) by (unfold nengetsu; simpl; rewrite Hd; reflexivity).
    assert (Ed : daily (data df1 ++ t :: data df2) = daily (data df1 ++ data df2))
      by (unfold daily; rewrite (groupby_skip _ _ _ _ _ Hh); reflexivity).
    split; [exact Ed|split; [|split; [|split]]].
    + unfold monthly; rewrite (groupby_skip _ _ _ _ _ Hn); reflexivity.
    + unfold ruiseki, daily_totals; rewrite Ed; reflexivity.
    + unfold total_profit; apply subset_sum_insert.
    + unfold total_loss; apply subset_sum_insert.
  - intros Hp.
    assert (Hpt : t_pnl t = None) by exact Hp.
    assert (Hk : kachi t = false) by (unfold kachi; rewrite Hpt; reflexivity).
    assert (Hl : make t = false) by (unfold make; rewrite Hpt; reflexivity).
    unfold payoff_ratio, profit_factor, avg_profit, avg_loss, total_profit, total_loss.
    rewrite (filter_skip kachi _ _ _ Hk), (filter_skip make _ _ _ Hl).
    split; [reflexivity | split; [reflexivity|]].
    intros g1 g2; apply agg_skip_missing_pnl; exact Hpt.
Qed.

(** C3 (totals agree): the daily 総損益 column and the monthly 総損益
    column have the same sum, which is the total P&L of the filtered rows
    with neither a missing 約定日 nor a missing P&L. *)
Theorem daily_monthly_totals_agree (df : list (Row Cell)) :
  zsum (map (fun ks => sou_soneki (snd ks)) (r_daily (show df))) =
  zsum (map (fun ks => sou_soneki (snd ks)) (r_monthly (show df))) /\
  zsum (map (fun ks => sou_soneki (snd ks)) (r_daily (show df))) =
  nonmissing_total (data df).
Proof.
  change (zsum (daily_totals (data df)) = zsum (monthly_totals (data df)) /\
          zsum (daily_totals (data df)) = nonmissing_total (data df)).
  rewrite daily_total_all, monthly_total_all; split; reflexivity.
Qed.

(** C4 (win rate): the 勝率 of every daily and every monthly row is
    (rows of its group with P&L > 0) / (rows of its group) * 100, and lies
    between 0 and 100. *)
Theorem win_rate_per_group (df : list (Row Cell)) :
  (forall k s, In (k, s) (r_daily (show df)) ->
     exists g q, In (k, g) (groupby date_cmp hiduke (data df)) /\ s = agg g /\
       shouritsu s = Fin q /\
       (q == QZ (count_true (fun t => match t_pnl t with Some p => 0 <? p | None => false end) g)
             / QZ (Z.of_nat (length g)) * QZ 100 /\ 0 <= q <= 100)%Q) /\
  (forall k s, In (k, s) (r_monthly (show df)) ->
     exists g q, In (k, g) (groupby month_cmp nengetsu (data df)) /\ s = agg g /\
       shouritsu s = Fin q /\
       (q == QZ (count_true (fun t => match t_pnl t with Some p => 0 <? p | None => false end) g)
             / QZ (Z.of_nat (length g)) * QZ 100 /\ 0 <= q <= 100)%Q).
Proof.
  split; intros k s Hin; apply in_agg_groups in Hin as [g [Hg ->]];
    destruct (agg_shouritsu g (in_groupby_nonempty _ _ _ _ _ Hg)) as [q Hq];
    exists g, q; refine (conj Hg (conj eq_refl Hq)).
Qed.

(** C5 (cumulative series): the daily rows are in increasing date order;
    the 累積損益 series has one value per daily row, starts at the first
    day's total, steps from each date to the next by exactly that day's
    total (so the step is >= 0 exactly when the day's total is >= 0 and
    < 0 exactly when it is < 0), and ends at the total P&L of the
    non-missing rows. *)
Theorem cumulative_running_sum (df : list (Row Cell)) :
  let tot := map (fun ks => sou_soneki (snd ks)) (r_daily (show df)) in
  let c := r_ruiseki (show df) in
  Sorted (fun a b => date_cmp a b = Lt) (map fst (r_daily (show df))) /\
  length c = length (r_daily (show df)) /\
  nth 0 c 0 = nth 0 tot 0 /\
  (forall i, (S i < length (r_daily (show df)))%nat ->
     nth (S i) c 0 - nth i c 0 = nth (S i) tot 0 /\
     (0 <= nth (S i) c 0 - nth i c 0 <-> 0 <= nth (S i) tot 0) /\
     (nth (S i) c 0 - nth i c 0 < 0 <-> nth (S i) tot 0 < 0)) /\
  (r_daily (show df) <> [] -> last c 0 = nonmissing_total (data df)).
Proof.
  intros tot c.
  change tot with (daily_totals (data df)) in *.
  change c with (cumsum (daily_totals (data df))) in *.
  assert (Hlen : length (daily_totals (data df)) = length (r_daily (show df)))
    by (unfold daily_totals; rewrite length_map; reflexivity).
  split; [|split; [|split; [|split]]].
  - unfold show_summary, summarize; cbn [r_daily]; unfold daily, agg_groups.
    rewrite map_map; cbn [fst].
    apply groupby_sorted, date_cmp_antisym.
  - unfold cumsum; rewrite cumsum_from_length; exact Hlen.
  - unfold cumsum; destruct (daily_totals (data df)); reflexivity.
  - intros i Hi; rewrite <- Hlen in Hi.
    unfold cumsum; rewrite (cumsum_from_step 0 _ i Hi); lia.
  - intros Hne; unfold cumsum; rewrite cumsum_from_last.
    + rewrite daily_total_all; reflexivity.
    + intros E; apply Hne; apply length_zero_iff_nil; rewrite <- Hlen, E; reflexivity.
Qed.

(** C8 (margin filter): a row whose 取引 label does not contain 信用 (such
    as 現物) changes nothing in the report: it is dropped before any
    coercion, derivation or aggregation. *)
Theorem non_margin_row_excluded (df1 df2 : list (Row Cell)) (r : Row Cell) :
  is_margin r = false -> show (df1 ++ r :: df2) = show (df1 ++ df2).
Proof.
  intros H; unfold show_summary, filtered; rewrite (filter_skip _ _ _ _ H); reflexivity.
Qed.

(** C9 (最大損失): in every daily and monthly row, 最大損失 is the minimum
    P&L over the whole group, wins included: it is the P&L of a row of the
    group, no row of the group has a smaller P&L, and on a group where
    every row is a win it is strictly positive. *)
Theorem max_loss_is_group_min (df : list (Row Cell)) :
  (forall k s, In (k, s) (r_daily (show df)) ->
     exists g, In (k, g) (groupby date_cmp hiduke (data df)) /\
       saidai_sonshitsu s = min_skipna (map t_pnl g) /\
       (forall m, saidai_sonshitsu s = Some m ->
          (exists t, In t g /\ t_pnl t = Some m) /\
          forall t p, In t g -> t_pnl t = Some p -> m <= p) /\
       ((forall t, In t g -> kachi t = true) ->
          exists m, saidai_sonshitsu s = Some m /\ 0 < m)) /\
  (forall k s, In (k, s) (r_monthly (show df)) ->
     exists g, In (k, g) (groupby month_cmp nengetsu (data df)) /\
       saidai_sonshitsu s = min_skipna (map t_pnl g) /\
       (forall m, saidai_sonshitsu s = Some m ->
          (exists t, In t g /\ t_pnl t = Some m) /\
          forall t p, In t g -> t_pnl t = Some p -> m <= p) /\
       ((forall t, In t g -> kachi t = true) ->
          exists m, saidai_sonshitsu s = Some m /\ 0 < m)).
Proof.
  split; intros k s Hin; apply in_agg_groups in Hin as [g [Hg ->]];
    exists g; exact (conj Hg (agg_saidai g (in_groupby_nonempty _ _ _ _ _ Hg))).
Qed.

(** C10 (profit factor 0 shown as 計算不可): with at least one losing row
    and no winning row, the profit factor is 0 (0 / |total loss|), and
    because [0.0] is falsy it is displayed as 計算不可. *)
Theorem profit_factor_zero_hidden (df : list (Row Cell)) :
  (exists t, In t (data df) /\ make t = true) ->
  (forall t, In t (data df) -> kachi t = false) ->
  exists q, r_profit_factor (show df) = Some (Fin q) /\ (q == 0)%Q /\
    r_profit_factor_display (show df) = NotComputable.
Proof.
  intros [t [Ht Hmt]] Hnw.
  assert (Hw : filter kachi (data df) = []).
  { destruct (filter kachi (data df)) as [|u l] eqn:E; [reflexivity|].
    assert (Hu : In u (filter kachi (data df))) by (rewrite E; left; reflexivity).
    apply filter_In in Hu as [Hu Hk]; rewrite (Hnw u Hu) in Hk; discriminate. }
  assert (Hl : filter make (data df) <> []).
  { intros E; assert (Hu : In t (filter make (data df))) by (apply filter_In; auto).
    rewrite E in Hu; destruct Hu. }
  pose proof (total_loss_negative _ Hl) as Hneg.
  unfold show_summary, summarize; cbn [r_profit_factor r_profit_factor_display].
  unfold profit_factor; rewrite (total_profit_no_wins _ Hw).
  destruct (total_loss (data df) =? 0) eqn:E0; [apply Z.eqb_eq in E0; lia|]; cbn [negb].
  unfold py_div.
  destruct (Qeq_bool (QZ (Z.abs (total_loss (data df)))) 0) eqn:E1.
  { apply Qeq_bool_iff in E1; unfold Qeq, QZ in E1; simpl in E1; lia. }
  exists (QZ 0 / QZ (Z.abs (total_loss (data df))))%Q.
  assert (Hq : (QZ 0 / QZ (Z.abs (total_loss (data df))) == 0)%Q)
    by (unfold Qdiv; apply Qmult_0_l).
  split; [reflexivity | split; [exact Hq|]].
  unfold metric_display, truthy.
  apply Qeq_bool_iff in Hq; rewrite Hq; reflexivity.
Qed.
End Claims.

(** C7 (win/loss classification): 勝ち holds exactly for a strictly positive
    P&L and 負け exactly for a strictly negative one; a zero-P&L row is
    neither yet is counted in 総取引数 (and not in 勝ち数); 平均利益 and
    avg_profit are means over the winning rows only, 平均損失 and avg_loss
    over the losing rows only, and each is NaN exactly when its subset is
    empty. *)
Theorem win_loss_classification :
  (forall t, kachi t = true <-> exists p, t_pnl t = Some p /\ 0 < p) /\
  (forall t, make t = true <-> exists p, t_pnl t = Some p /\ p < 0) /\
  (forall t g, t_pnl t = Some 0 ->
     kachi t = false /\ make t = false /\
     sou_torihiki_su (agg (t :: g)) = sou_torihiki_su (agg g) + 1 /\
     kachi_su (agg (t :: g)) = kachi_su (agg g)) /\
  (forall g, heikin_rieki (agg g) = mean_skipna (map t_pnl (filter kachi g)) /\
             (heikin_rieki (agg g) = NaN <-> filter kachi g = [])) /\
  (forall g, heikin_sonshitsu (agg g) = mean_skipna (map t_pnl (filter make g)) /\
             (heikin_sonshitsu (agg g) = NaN <-> filter make g = [])) /\
  (forall ts, avg_profit ts = NaN <-> filter kachi ts = []) /\
  (forall ts, avg_loss ts = NaN <-> filter make ts = []).
Proof.
  split; [|split; [|split; [|split; [|split; [|split]]]]].
  - intros t; unfold kachi; destruct (t_pnl t) as [p|]; split.
    + intros H; exists p; split; [reflexivity | apply Z.ltb_lt; exact H].
    + intros [p' [E H]]; inversion E; subst; apply Z.ltb_lt; exact H.
    + discriminate.
    + intros [p' [E _]]; discriminate.
  - intros t; unfold make; destruct (t_pnl t) as [p|]; split.
    + intros H; exists p; split; [reflexivity | apply Z.ltb_lt; exact H].
    + intros [p' [E H]]; inversion E; subst; apply Z.ltb_lt; exact H.
    + discriminate.
    + intros [p' [E _]]; discriminate.
  - intros t g H.
    assert (Hk : kachi t = false) by (unfold kachi; rewrite H; reflexivity).
    assert (Hl : make t = false) by (unfold make; rewrite H; reflexivity).
    split; [exact Hk | split; [exact Hl | split]].
    + unfold agg; cbn [sou_torihiki_su length]; lia.
    + unfold agg; cbn [kachi_su]; unfold count_true; cbn [filter]; rewrite Hk; reflexivity.
  - intros g; rewrite heikin_rieki_subset; split; [reflexivity|].
    apply (subset_mean_nan kachi kachi_present).
  - intros g; rewrite heikin_sonshitsu_subset; split; [reflexivity|].
    apply (subset_mean_nan make make_present).
  - intros ts; apply (subset_mean_nan kachi kachi_present).
  - intros ts; apply (subset_mean_nan make make_present).
Qed.

(** C6 (worked example): for the trades 2025-01-01 +1000, 2025-01-01 -400
    and 2025-01-02 +300, the 2025-01-01 row has 総損益 600, 勝ち数 1, one
    losing row (its group has one row flagged 負け; the table itself has no
    loss-count column, and 総取引数 is 2) and 勝率 50 %; the 2025-01-02 row
    has 総損益 300 and 勝率 100 %. *)
Theorem worked_example_daily :
  exists g1 g2 s1 s2 q1 q2,
    groupby date_cmp hiduke (filtered sample_to_datetime sample_to_numeric example_table)
      = [(mkDate 2025 1 1, g1); (mkDate 2025 1 2, g2)] /\
    r_daily (sample_show_summary example_table)
      = [(mkDate 2025 1 1, s1); (mkDate 2025 1 2, s2)] /\
    s1 = agg g1 /\ s2 = agg g2 /\
    sou_soneki s1 = 600 /\ kachi_su s1 = 1 /\ count_true make g1 = 1 /\
    sou_torihiki_su s1 = 2 /\ shouritsu s1 = Fin q1 /\ (q1 == 50)%Q /\
    sou_soneki s2 = 300 /\ shouritsu s2 = Fin q2 /\ (q2 == 100)%Q.
Proof.
  do 6 eexists.
  split; [vm_compute; reflexivity|].
  split; [vm_compute; reflexivity|].
  repeat split; vm_compute; reflexivity.
Qed.

(** C2 counterexample: a dated margin trade whose P&L cell is [abc] is not
    left out of every aggregate: the report differs from the empty table's,
    with a 2025-01-01 row counting one trade at a 勝率 of 0 %. *)
Lemma unparsable_pnl_still_counted :
  sample_show_summary unparsable_pnl_table <> sample_show_summary [] /\
  exists s q, r_daily (sample_show_summary unparsable_pnl_table) = [(mkDate 2025 1 1, s)] /\
    sou_torihiki_su s = 1 /\ kachi_su s = 0 /\ sou_soneki s = 0 /\
    shouritsu s = Fin q /\ (q == 0)%Q.
Proof.
  split; [vm_compute; discriminate|].
  do 2 eexists; split; [vm_compute; reflexivity|].
  repeat split; vm_compute; reflexivity.
Qed.

(** ** Witnesses *)

Lemma payoff_ratio_nan_without_losses_witness :
  filter make (filtered sample_to_datetime sample_to_numeric one_win_table) = [] /\
  r_payoff_display (sample_show_summary one_win_table) = Shown NaN /\
  r_profit_factor_display (sample_show_summary one_win_table) = NotComputable.
Proof.
  assert (H : filter make (filtered sample_to_datetime sample_to_numeric one_win_table) = [])
    by (vm_compute; reflexivity).
  destruct (payoff_ratio_nan_without_losses string sample_to_datetime sample_to_numeric
              one_win_table H) as [_ [Hd [_ Hp]]].
  exact (conj H (conj Hd Hp)).
Defined.

Lemma coerced_missing_cells_witness :
  is_margin garbage_row = true /\
  sample_to_datetime (yakujoubi garbage_row) = None /\
  sample_to_numeric (kessai garbage_row) = None /\
  r_daily (sample_show_summary (one_win_table ++ garbage_row :: one_loss_table)) =
    r_daily (sample_show_summary (one_win_table ++ one_loss_table)) /\
  r_payoff (sample_show_summary (one_win_table ++ garbage_row :: one_loss_table)) =
    r_payoff (sample_show_summary (one_win_table ++ one_loss_table)).
Proof.
  assert (Hm : is_margin garbage_row = true) by (vm_compute; reflexivity).
  assert (Hd : sample_to_datetime (yakujoubi garbage_row) = None) by (vm_compute; reflexivity).
  assert (Hp : sample_to_numeric (kessai garbage_row) = None) by (vm_compute; reflexivity).
  destruct (coerced_missing_cells string sample_to_datetime sample_to_numeric
              one_win_table one_loss_table garbage_row Hm) as [H1 H2].
  exact (conj Hm (conj Hd (conj Hp (conj (proj1 (H1 Hd)) (proj1 (H2 Hp)))))).
Defined.

Lemma non_margin_row_excluded_witness :
  is_margin cash_row = false /\
  sample_show_summary (example_table ++ cash_row :: one_loss_table) =
    sample_show_summary (example_table ++ one_loss_table).
Proof.
  assert (H : is_margin cash_row = false) by (vm_compute; reflexivity).
  exact (conj H (non_margin_row_excluded string sample_to_datetime sample_to_numeric
                   example_table one_loss_table cash_row H)).
Defined.

Lemma profit_factor_zero_hidden_witness :
  (exists t, In t (filtered sample_to_datetime sample_to_numeric one_loss_table) /\ make t = true) /\
  (forall t, In t (filtered sample_to_datetime sample_to_numeric one_loss_table) -> kachi t = false) /\
  r_profit_factor_display (sample_show_summary one_loss_table) = NotComputable.
Proof.
  assert (H1 : exists t, In t (filtered sample_to_datetime sample_to_numeric one_loss_table)
                         /\ make t = true).
  { eexists; split; [vm_compute; left; reflexivity | vm_compute; reflexivity]. }
  assert (H2 : forall t, In t (filtered sample_to_datetime sample_to_numeric one_loss_table) ->
                         kachi t = false).
  { intros t Ht; vm_compute in Ht; destruct Ht as [<-|[]]; vm_compute; reflexivity. }
  destruct (profit_factor_zero_hidden string sample_to_datetime sample_to_numeric
              one_loss_table H1 H2) as [q [_ [_ Hd]]].
  exact (conj H1 (conj H2 Hd)).
Defined.

(** ** Colouring *)

Lemma zmax_abs_spec xs m :
  zmax_abs xs = Some m -> (forall x, In x xs -> Z.abs x <= m) /\ exists x, In x xs /\ Z.abs x = m.
Proof.
  revert m; induction xs as [|x xs IH]; intros m H; simpl in H; [discriminate|].
  destruct (zmax_abs xs) as [m'|] eqn:E; inversion H; subst; clear H.
  - destruct (IH m' eq_refl) as [Hle [y [Hy Hym]]]; split.
    + intros z [<-|Hz]; [lia | specialize (Hle z Hz); lia].
    + destruct (Z.max_spec (Z.abs x) m') as [[_ ->]|[_ ->]].
      * exists y; split; [right|]; assumption.
      * exists x; split; [left|]; reflexivity.
  - split; [|exists x; split; [left|]; reflexivity].
    intros z [<-|Hz]; [lia|].
    exfalso; clear IH; induction xs as [|y ys IHy]; [destruct Hz|].
    simpl in E; destruct (zmax_abs ys); discriminate.
Qed.

Lemma zmax_abs_nonempty xs : xs <> [] -> exists m, zmax_abs xs = Some m.
Proof.
  destruct xs as [|x xs]; [congruence|]; intros _; simpl.
  destruct (zmax_abs xs); eauto.
Qed.

Lemma Qle_bool_QZ a b : Qle_bool (QZ a) (QZ b) = (a <=? b).
Proof.
  destruct (Qle_bool (QZ a) (QZ b)) eqn:E; symmetry.
  - apply Qle_bool_iff in E; unfold Qle, QZ in E; simpl in E; apply Z.leb_le; lia.
  - apply Z.leb_gt; destruct (Z.le_gt_cases a b) as [H|H]; [|exact H].
    assert (H' : (QZ a <= QZ b)%Q) by (unfold Qle, QZ; simpl; lia).
    apply Qle_bool_iff in H'; congruence.
Qed.

(** The colour of an integer cell when [max_abs] is a positive bound of it. *)
Lemma color_int fs v M :
  Z.abs v <= M -> 0 < M ->
  let r := (QZ (Z.abs v) / QZ M)%Q in
  let a := if Qle_bool (2 # 5) r then alpha_cap else Fin r in
  color_profit_normalized fs (PNum (Fin (QZ v))) (Fin (QZ M)) =
    if 0 <? v then Green a else if v <? 0 then Red a else NoStyle.
Proof.
  intros Hv HM r a.
  assert (HM0 : Qeq_bool (QZ M) 0 = false).
  { destruct (Qeq_bool (QZ M) 0) eqn:E; [|reflexivity].
    apply Qeq_bool_iff in E; unfold Qeq, QZ in E; simpl in E; lia. }
  unfold color_profit_normalized, py_float, py_ne, py_abs, py_div, py_min, py_lt.
  rewrite HM0; cbn [negb].
  change (Qabs (QZ v)) with (QZ (Z.abs v)); fold r.
  change (0 # 1)%Q with (QZ 0).
  rewrite !Qle_bool_QZ, <- !Z.ltb_antisym.
  unfold a, alpha_cap; destruct (Qle_bool (2 # 5) r); reflexivity.
Qed.

Lemma ratio_bounds v M :
  Z.abs v <= M -> 0 < M ->
  (0 <= QZ (Z.abs v) / QZ M <= 1)%Q /\ (v <> 0 -> (0 < QZ (Z.abs v) / QZ M)%Q).
Proof.
  intros Hv HM; destruct M as [|p|p]; try lia.
  unfold QZ, inject_Z, Qdiv, Qle, Qlt; simpl.
  rewrite ?Pos2Z.inj_mul; split; [split|intros Hne]; nia.
Qed.

Lemma ratio_mono v w M :
  Z.abs v <= Z.abs w -> 0 < M ->
  (QZ (Z.abs v) / QZ M <= QZ (Z.abs w) / QZ M)%Q.
Proof.
  intros H HM; destruct M as [|p|p]; try lia.
  unfold QZ, inject_Z, Qdiv, Qle; simpl; rewrite ?Pos2Z.inj_mul; nia.
Qed.

Lemma color_zero fs m : color_profit_normalized fs (PNum (Fin (QZ 0))) m = NoStyle.
Proof. reflexivity. Qed.

Lemma alpha_of_cap_bounds r :
  (0 < r)%Q ->
  let a := if Qle_bool (2 # 5) r then (2 # 5)%Q else r in (0 < a <= 2 # 5)%Q.
Proof.
  intros Hr a; unfold a; destruct (Qle_bool (2 # 5) r) eqn:E.
  - split; [reflexivity | apply Qle_refl].
  - split; [exact Hr|].
    apply Qlt_le_weak, Qnot_le_lt; intros H; apply Qle_bool_iff in H; congruence.
Qed.

Lemma Qle_bool_not_iff x y : Qle_bool x y = false -> ~ (x <= y)%Q.
Proof. intros E H; apply Qle_bool_iff in H; congruence. Qed.

Section ColorFacts.
Variable float_str : string -> option PyFloat.

End ColorFacts.

Lemma alpha_fin r :
  (if Qle_bool (2 # 5) r then alpha_cap else Fin r) =
  Fin (if Qle_bool (2 # 5) r then (2 # 5)%Q else r).
Proof. unfold alpha_cap; destruct (Qle_bool (2 # 5) r); reflexivity. Qed.

Lemma ratio_full M : 0 < M -> Qle_bool (2 # 5) (QZ M / QZ M) = true.
Proof.
  intros HM; apply Qle_bool_iff; destruct M as [|p|p]; try lia.
  unfold QZ, inject_Z, Qdiv, Qle; simpl; rewrite ?Pos2Z.inj_mul; nia.
Qed.

Section TableColor.
Variable float_str : string -> option PyFloat.

Lemma total_styles_nth (tot : list Z) i v :
  nth_error tot i = Some v ->
  exists M, zmax_abs tot = Some M /\ (forall w, In w tot -> Z.abs w <= M) /\
    (exists w, In w tot /\ Z.abs w = M) /\ Z.abs v <= M /\
    nth_error (total_styles float_str tot) i =
      Some (color_profit_normalized float_str (PNum (Fin (QZ v))) (Fin (QZ M))).
Proof.
  intros Hi.
  assert (Hin : In v tot) by (eapply nth_error_In; eassumption).
  destruct (zmax_abs_nonempty tot) as [M HM]; [destruct tot; [destruct Hin|discriminate]|].
  destruct (zmax_abs_spec tot M HM) as [Hle Hex].
  exists M; split; [exact HM|]; split; [exact Hle|]; split; [exact Hex|]; split; [auto|].
  unfold total_styles; rewrite nth_error_map, Hi; simpl.
  unfold max_abs_of; rewrite HM; reflexivity.
Qed.

(** X2 ([show_summary] with [color_profit_normalized]): in the shading of a
    column of integer totals, with the largest absolute total of the column
    as [max_abs], every total keeps its position; a zero total is not
    shaded, a positive one is green and a negative one red, each with an
    opacity strictly between 0 and 0.4 inclusive; and a nonzero total of
    largest absolute value is shaded at the full opacity 0.4. *)
Theorem total_styles_shading (tot : list Z) :
  length (total_styles float_str tot) = length tot /\
  forall i v, nth_error tot i = Some v ->
    (v = 0 -> nth_error (total_styles float_str tot) i = Some NoStyle) /\
    (0 < v -> exists q, nth_error (total_styles float_str tot) i = Some (Green (Fin q)) /\
                        (0 < q <= 2 # 5)%Q) /\
    (v < 0 -> exists q, nth_error (total_styles float_str tot) i = Some (Red (Fin q)) /\
                        (0 < q <= 2 # 5)%Q) /\
    (v <> 0 -> (forall w, In w tot -> Z.abs w <= Z.abs v) ->
       option_map style_alpha (nth_error (total_styles float_str tot) i) =
       Some (Some alpha_cap)).
Proof.
  split; [unfold total_styles; apply length_map|].
  intros i v Hi.
  destruct (total_styles_nth tot i v Hi) as [M [_ [Hle [[w [Hw Hwm]] [Hv Hs]]]]].
  rewrite Hs.
  destruct (Z.eq_dec v 0) as [Hz|Hnz].
  { subst v; split; [intros _; rewrite color_zero; reflexivity|].
    split; [intros H; lia|]; split; [intros H; lia|]; intros H; congruence. }
  assert (HM : 0 < M) by lia.
  rewrite (color_int float_str v M Hv HM), alpha_fin.
  destruct (ratio_bounds v M Hv HM) as [_ Hpos].
  pose proof (alpha_of_cap_bounds _ (Hpos Hnz)) as Hb; cbv zeta in Hb.
  split; [intros H; lia|].
  split; [intros H; rewrite (proj2 (Z.ltb_lt 0 v) H); eexists; split; [reflexivity|exact Hb]|].
  split.
  { intros H; rewrite (proj2 (Z.ltb_ge 0 v) ltac:(lia)), (proj2 (Z.ltb_lt v 0) H).
    eexists; split; [reflexivity|exact Hb]. }
  intros _ Hmax.
  assert (Hvm : Z.abs v = M) by (specialize (Hmax w Hw); lia).
  rewrite Hvm, (ratio_full M HM).
  destruct (0 <? v) eqn:E0; [reflexivity|].
  destruct (v <? 0) eqn:E; [reflexivity|].
  apply Z.ltb_ge in E; apply Z.ltb_ge in E0; exfalso; lia.
Qed.

(** X3 ([show_summary] with [color_profit_normalized]): within one column
    of totals, shading is monotone in the absolute value: if two nonzero
    totals satisfy |v| <= |w|, the opacity of v's cell is at most that of
    w's cell. *)
Theorem total_styles_monotone (tot : list Z) i j v w :
  nth_error tot i = Some v -> nth_error tot j = Some w ->
  v <> 0 -> Z.abs v <= Z.abs w ->
  exists a b,
    option_map style_alpha (nth_error (total_styles float_str tot) i) = Some (Some (Fin a)) /\
    option_map style_alpha (nth_error (total_styles float_str tot) j) = Some (Some (Fin b)) /\
    (a <= b)%Q.
Proof.
  intros Hi Hj Hv Hvw.
  destruct (total_styles_nth tot i v Hi) as [M [HM [_ [_ [HvM Hs]]]]].
  destruct (total_styles_nth tot j w Hj) as [M' [HM' [_ [_ [HwM Hs']]]]].
  rewrite HM in HM'; injection HM' as <-.
  assert (HM0 : 0 < M) by lia.
  rewrite Hs, Hs', (color_int float_str v M HvM HM0), (color_int float_str w M HwM HM0), !alpha_fin.
  pose proof (ratio_mono v w M Hvw HM0) as Hr.
  set (rv := (QZ (Z.abs v) / QZ M)%Q) in *; set (rw := (QZ (Z.abs w) / QZ M)%Q) in *.
  exists (if Qle_bool (2 # 5) rv then (2 # 5)%Q else rv),
         (if Qle_bool (2 # 5) rw then (2 # 5)%Q else rw).
  split; [destruct (0 <? v) eqn:E0; [reflexivity|]; destruct (v <? 0) eqn:E; [reflexivity|];
          apply Z.ltb_ge in E; apply Z.ltb_ge in E0; exfalso; lia|].
  split; [destruct (0 <? w) eqn:E0; [reflexivity|]; destruct (w <? 0) eqn:E; [reflexivity|];
          apply Z.ltb_ge in E; apply Z.ltb_ge in E0; exfalso; lia|].
  destruct (Qle_bool (2 # 5) rv) eqn:Ev, (Qle_bool (2 # 5) rw) eqn:Ew.
  - apply Qle_refl.
  - apply Qle_bool_iff in Ev; apply Qle_bool_not_iff in Ew.
    exfalso; apply Ew; eapply Qle_trans; eassumption.
  - apply Qle_bool_not_iff in Ev; apply Qlt_le_weak, Qnot_le_lt; exact Ev.
  - exact Hr.
Qed.

End TableColor.

(** ** Contents of the groups of [groupby] *)

Lemma filter_none {A} (f : A -> bool) l : (forall x, In x l -> f x = false) -> filter f l = [].
Proof.
  induction l as [|x l IH]; intros H; simpl; [reflexivity|].
  rewrite (H x (or_introl eq_refl)); apply IH; intros y Hy; apply H; right; exact Hy.
Qed.

Lemma filter_all {A} (f : A -> bool) l : (forall x, In x l -> f x = true) -> filter f l = l.
Proof.
  induction l as [|x l IH]; intros H; simpl; [reflexivity|].
  rewrite (H x (or_introl eq_refl)), IH; [reflexivity|].
  intros y Hy; apply H; right; exact Hy.
Qed.

Lemma perm_filter {A} (f : A -> bool) (l l' : list A) :
  Permutation l l' -> Permutation (filter f l) (filter f l').
Proof.
  induction 1 as [|x l l' _ IH|x y l|l l' l'' _ IH1 _ IH2]; simpl.
  - constructor.
  - destruct (f x); [constructor|]; exact IH.
  - destruct (f x), (f y); try constructor; reflexivity.
  - eapply Permutation_trans; eassumption.
Qed.

Lemma Zlex_trans (x1 x2 x3 : Z) (c12 c23 c13 : comparison) :
  (c12 = Lt -> c23 = Lt -> c13 = Lt) ->
  match x1 ?= x2 with Eq => c12 | c => c end = Lt ->
  match x2 ?= x3 with Eq => c23 | c => c end = Lt ->
  match x1 ?= x3 with Eq => c13 | c => c end = Lt.
Proof.
  intros H.
  destruct (Z.compare_spec x1 x2), (Z.compare_spec x2 x3), (Z.compare_spec x1 x3);
    intros; subst; try discriminate; try lia; auto.
Qed.

Lemma date_cmp_eq a b : date_cmp a b = Eq <-> a = b.
Proof.
  destruct a as [y m d], b as [y' m' d']; unfold date_cmp; cbn [year month day].
  split; [|intros H; injection H as <- <- <-; rewrite !Z.compare_refl; reflexivity].
  destruct (Z.compare_spec y y'); try discriminate;
    destruct (Z.compare_spec m m'); try discriminate;
    destruct (Z.compare_spec d d'); try discriminate; subst; reflexivity.
Qed.

Lemma date_cmp_trans a b c : date_cmp a b = Lt -> date_cmp b c = Lt -> date_cmp a c = Lt.
Proof.
  unfold date_cmp; apply Zlex_trans; apply Zlex_trans.
  rewrite !Z.compare_lt_iff; lia.
Qed.

Lemma month_cmp_eq a b : month_cmp a b = Eq <-> a = b.
Proof.
  destruct a as [y m], b as [y' m']; unfold month_cmp; cbn [p_year p_month].
  split; [|intros H; injection H as <- <-; rewrite !Z.compare_refl; reflexivity].
  destruct (Z.compare_spec y y'); try discriminate;
    destruct (Z.compare_spec m m'); try discriminate; subst; reflexivity.
Qed.

Lemma month_cmp_trans a b c : month_cmp a b = Lt -> month_cmp b c = Lt -> month_cmp a c = Lt.
Proof.
  unfold month_cmp; apply Zlex_trans.
  rewrite !Z.compare_lt_iff; lia.
Qed.

Section GroupContent.
Context {K A : Type}.
Variable cmp : K -> K -> comparison.
Variable key : A -> option K.
Hypothesis cmp_eq : forall a b, cmp a b = Eq <-> a = b.
Hypothesis cmp_antisym : forall a b, cmp a b = Gt -> cmp b a = Lt.
Hypothesis cmp_trans : forall a b c, cmp a b = Lt -> cmp b c = Lt -> cmp a c = Lt.

Let R := fun a b => cmp a b = Lt.

Lemma cmp_refl a : cmp a a = Eq.
Proof. apply cmp_eq; reflexivity. Qed.

Lemma has_key_iff k r : has_key cmp key k r = true <-> key r = Some k.
Proof.
  unfold has_key; destruct (key r) as [k'|]; [|split; discriminate].
  destruct (cmp k' k) eqn:E.
  - apply cmp_eq in E; subst; split; reflexivity.
  - split; [discriminate|]; intros H; injection H as ->; rewrite cmp_refl in E; discriminate.
  - split; [discriminate|]; intros H; injection H as ->; rewrite cmp_refl in E; discriminate.
Qed.

Lemma insert_group_keys k (r : A) (gs : list (K * list A)) x :
  In x (map fst gs) \/ x = k -> In x (map fst (insert_group cmp k r gs)).
Proof.
  induction gs as [|[k' rs] gs IH]; simpl.
  - intros [[]| ->]; left; reflexivity.
  - intros [[<-|Hx]| ->]; destruct (cmp k k') eqn:E; simpl.
    + left; reflexivity.
    + right; left; reflexivity.
    + left; reflexivity.
    + right; exact Hx.
    + right; right; exact Hx.
    + right; apply IH; left; exact Hx.
    + apply cmp_eq in E; left; symmetry; exact E.
    + left; reflexivity.
    + right; apply IH; right; reflexivity.
Qed.

Lemma not_in_sorted_tail k k' (ks : list K) :
  Forall (R k') ks -> cmp k k' = Lt -> ~ In k (k' :: ks).
Proof.
  intros HF E [H|H].
  - subst; rewrite cmp_refl in E; discriminate.
  - rewrite Forall_forall in HF; specialize (HF k H).
    pose proof (cmp_trans _ _ _ E HF) as C; rewrite cmp_refl in C; discriminate.
Qed.

Lemma insert_group_in k (r : A) (gs : list (K * list A)) k'' g'' :
  StronglySorted R (map fst gs) -> In (k'', g'') (insert_group cmp k r gs) ->
  (k'' = k /\ ((g'' = [r] /\ ~ In k (map fst gs)) \/
               exists rs, In (k, rs) gs /\ g'' = rs ++ [r])) \/
  (k'' <> k /\ In (k'', g'') gs).
Proof.
  induction gs as [|[k' rs] gs IH]; simpl.
  - intros _ [H|[]]; injection H as <- <-; left; split; [reflexivity|left; split; auto].
  - intros HS Hin; apply StronglySorted_inv in HS as [HS HF].
    destruct (cmp k k') eqn:E.
    + apply cmp_eq in E; subst k'.
      destruct Hin as [H|H].
      * injection H as <- <-; left; split; [reflexivity|right].
        exists rs; split; [left|]; reflexivity.
      * right; split; [|right; exact H].
        intros ->; rewrite Forall_forall in HF.
        specialize (HF k (in_map fst _ _ H)); unfold R in HF; rewrite cmp_refl in HF;
          discriminate.
    + destruct Hin as [H|H].
      * injection H as <- <-; left; split; [reflexivity|left; split; [reflexivity|]].
        exact (not_in_sorted_tail k k' _ HF E).
      * right; split; [|exact H].
        intros ->; apply (not_in_sorted_tail k k' _ HF E).
        destruct H as [H|H]; [injection H as -> _; left; reflexivity|].
        right; exact (in_map fst _ _ H).
    + destruct Hin as [H|H].
      * injection H as <- <-; right; split; [|left; reflexivity].
        intros ->; rewrite cmp_refl in E; discriminate.
      * destruct (IH HS H) as [[-> [[-> Hn]|[rs' [Hrs ->]]]]|[Hne Hin']].
        -- left; split; [reflexivity|left; split; [reflexivity|]].
           intros [Hk|Hk]; [subst; rewrite cmp_refl in E; discriminate | exact (Hn Hk)].
        -- left; split; [reflexivity|right]; exists rs'; split; [right; exact Hrs|reflexivity].
        -- right; split; [exact Hne | right; exact Hin'].
Qed.

Lemma has_key_other k k' (r : A) : key r = Some k -> k' <> k -> has_key cmp key k' r = false.
Proof.
  intros Hr Hne; destruct (has_key cmp key k' r) eqn:E; [|reflexivity].
  apply has_key_iff in E; congruence.
Qed.

Lemma groupby_fold_inv (rows : list A) :
  forall (gs : list (K * list A)) (seen : list A),
  StronglySorted R (map fst gs) ->
  (forall k g, In (k, g) gs -> g = filter (has_key cmp key k) seen) ->
  (forall r k, In r seen -> key r = Some k -> In k (map fst gs)) ->
  let gs' := fold_left (groupby_step cmp key) rows gs in
  StronglySorted R (map fst gs') /\
  (forall k g, In (k, g) gs' -> g = filter (has_key cmp key k) (seen ++ rows)) /\
  (forall r k, In r (seen ++ rows) -> key r = Some k -> In k (map fst gs')).
Proof.
  induction rows as [|r rows IH]; intros gs seen HS Hg Hc; simpl.
  - rewrite app_nil_r; auto.
  - replace (seen ++ r :: rows) with ((seen ++ [r]) ++ rows) by (rewrite <- app_assoc; reflexivity).
    apply IH; unfold groupby_step; destruct (key r) as [k|] eqn:Kr.
    + apply Sorted_StronglySorted; [intros a b c; apply cmp_trans|].
      apply insert_group_sorted; [exact cmp_antisym | apply StronglySorted_Sorted; exact HS].
    + exact HS.
    + intros k'' g'' Hin; rewrite filter_app; simpl.
      destruct (insert_group_in k r gs k'' g'' HS Hin)
        as [[-> [[-> Hn]|[rs [Hrs ->]]]]|[Hne Hin']].
      * rewrite (proj2 (has_key_iff k r) Kr), filter_none; [reflexivity|].
        intros x Hx; destruct (has_key cmp key k x) eqn:E; [|reflexivity].
        apply has_key_iff in E; exfalso; exact (Hn (Hc x k Hx E)).
      * rewrite (proj2 (has_key_iff k r) Kr), <- (Hg k rs Hrs); reflexivity.
      * rewrite (has_key_other k k'' r Kr Hne), app_nil_r; exact (Hg k'' g'' Hin').
    + intros k'' g'' Hin; rewrite filter_app; simpl.
      assert (Hn : has_key cmp key k'' r = false) by (unfold has_key; rewrite Kr; reflexivity).
      rewrite Hn, app_nil_r; exact (Hg k'' g'' Hin).
    + intros x k' Hx Hk; apply in_app_or in Hx as [Hx|[<-|[]]].
      * apply insert_group_keys; left; exact (Hc x k' Hx Hk).
      * apply insert_group_keys; right; congruence.
    + intros x k' Hx Hk; apply in_app_or in Hx as [Hx|[<-|[]]].
      * exact (Hc x k' Hx Hk).
      * congruence.
Qed.

(** Each group holds exactly the rows of its key, in table order; every row
    with a key lands in a group; the keys are strictly increasing. *)
Lemma groupby_groups (rows : list A) :
  StronglySorted R (map fst (groupby cmp key rows)) /\
  (forall k g, In (k, g) (groupby cmp key rows) -> g = filter (has_key cmp key k) rows) /\
  (forall r k, In r rows -> key r = Some k -> In k (map fst (groupby cmp key rows))).
Proof.
  unfold groupby.
  apply (groupby_fold_inv rows [] []); simpl; [constructor | | ]; intros; contradiction.
Qed.

Lemma groupby_member_key (rows : list A) k g r :
  In (k, g) (groupby cmp key rows) -> In r g -> key r = Some k.
Proof.
  intros Hin Hr; destruct (groupby_groups rows) as [_ [Hg _]].
  rewrite (Hg k g Hin) in Hr; apply filter_In in Hr as [_ Hr].
  apply has_key_iff; exact Hr.
Qed.
End GroupContent.

Lemma agg_groups_keys {K} (gs : list (K * list Trade)) : map fst (agg_groups gs) = map fst gs.
Proof. unfold agg_groups; rewrite map_map; reflexivity. Qed.

Lemma in_agg_groups_of {K} (gs : list (K * list Trade)) k g :
  In (k, g) gs -> In (k, agg g) (agg_groups gs).
Proof. intros H; unfold agg_groups; exact (in_map (fun kg => (fst kg, agg (snd kg))) _ _ H). Qed.

(** X5 ([show_summary], lines 37-45): each row of the daily table is the
    aggregate of exactly the trades of the table whose 日付 is that row's
    date, in table order; each such row has at least one trade; every trade
    with a date is counted in the row of its date; and the dates of the
    daily table are strictly increasing (no date appears twice). *)
Theorem daily_rows_by_date (ts : list Trade) :
  (forall d s, In (d, s) (daily ts) ->
     s = agg (filter (has_key date_cmp hiduke d) ts) /\
     exists t, In t ts /\ hiduke t = Some d) /\
  (forall t d, In t ts -> hiduke t = Some d -> exists s, In (d, s) (daily ts)) /\
  StronglySorted (fun a b => date_cmp a b = Lt) (map fst (daily ts)).
Proof.
  destruct (groupby_groups date_cmp hiduke date_cmp_eq date_cmp_antisym date_cmp_trans ts)
    as [HS [Hg Hc]].
  unfold daily; split; [|split].
  - intros d s Hin; apply in_agg_groups in Hin as [g [Hin ->]].
    split; [rewrite (Hg d g Hin); reflexivity|].
    destruct g as [|t g']; [exfalso; exact (in_groupby_nonempty _ _ _ _ _ Hin eq_refl)|].
    exists t; split.
    + assert (Ht : In t (filter (has_key date_cmp hiduke d) ts)) by (rewrite <- (Hg _ (t :: g') Hin); left; reflexivity).
      apply filter_In in Ht as [Ht _]; exact Ht.
    + apply (groupby_member_key date_cmp hiduke date_cmp_eq date_cmp_antisym date_cmp_trans ts d
               (t :: g')); [exact Hin | left; reflexivity].
  - intros t d Ht Hd; specialize (Hc t d Ht Hd).
    apply in_map_iff in Hc as [[k g] [Ek Hk]]; simpl in Ek; subst k.
    exists (agg g); apply in_agg_groups_of; exact Hk.
  - rewrite agg_groups_keys; exact HS.
Qed.

(** X6 ([show_summary], lines 47-57): the same holds for the monthly table
    and 年月: each row aggregates exactly the trades of its month, every
    dated trade is counted in its month's row, and the months are strictly
    increasing. *)
Theorem monthly_rows_by_month (ts : list Trade) :
  (forall m s, In (m, s) (monthly ts) ->
     s = agg (filter (has_key month_cmp nengetsu m) ts) /\
     exists t, In t ts /\ nengetsu t = Some m) /\
  (forall t m, In t ts -> nengetsu t = Some m -> exists s, In (m, s) (monthly ts)) /\
  StronglySorted (fun a b => month_cmp a b = Lt) (map fst (monthly ts)).
Proof.
  destruct (groupby_groups month_cmp nengetsu month_cmp_eq month_cmp_antisym month_cmp_trans ts)
    as [HS [Hg Hc]].
  unfold monthly; split; [|split].
  - intros m s Hin; apply in_agg_groups in Hin as [g [Hin ->]].
    split; [rewrite (Hg m g Hin); reflexivity|].
    destruct g as [|t g']; [exfalso; exact (in_groupby_nonempty _ _ _ _ _ Hin eq_refl)|].
    exists t; split.
    + assert (Ht : In t (filter (has_key month_cmp nengetsu m) ts)) by (rewrite <- (Hg _ (t :: g') Hin); left; reflexivity).
      apply filter_In in Ht as [Ht _]; exact Ht.
    + apply (groupby_member_key month_cmp nengetsu month_cmp_eq month_cmp_antisym month_cmp_trans
               ts m (t :: g')); [exact Hin | left; reflexivity].
  - intros t m Ht Hm; specialize (Hc t m Ht Hm).
    apply in_map_iff in Hc as [[k g] [Ek Hk]]; simpl in Ek; subst k.
    exists (agg g); apply in_agg_groups_of; exact Hk.
  - rewrite agg_groups_keys; exact HS.
Qed.

(** ** 信用 filter (line 22) *)

Lemma prefix_app_iff (p s : string) : String.prefix p s = true <-> exists post, s = (p ++ post)%string.
Proof.
  revert s; induction p as [|a p IH]; intros s; simpl.
  - split; [intros _; exists s; reflexivity | intros _; destruct s; reflexivity].
  - destruct s as [|b s]; simpl.
    + split; [discriminate | intros [post H]; discriminate].
    + destruct (ascii_dec a b) as [<-|Hne].
      * rewrite IH; split; intros [post H]; exists post.
        -- rewrite H; reflexivity.
        -- injection H; auto.
      * split; [discriminate | intros [post H]; injection H; intros; congruence].
Qed.

Lemma str_contains_iff (pat s : string) :
  str_contains pat s = true <-> exists pre post, s = (pre ++ pat ++ post)%string.
Proof.
  induction s as [|c s IH]; cbn [str_contains]; rewrite orb_true_iff, prefix_app_iff.
  - split.
    + intros [[post H]|H]; [exists EmptyString, post; exact H | discriminate].
    + intros [pre [post H]]; left; exists post.
      destruct pre; [exact H | discriminate].
  - rewrite IH; split.
    + intros [[post H]|[pre [post H]]].
      * exists EmptyString, post; exact H.
      * exists (String c pre), post; rewrite H; reflexivity.
    + intros [pre [post H]]; destruct pre as [|c' pre].
      * left; exists post; exact H.
      * right; exists pre, post; injection H; auto.
Qed.

(** X4 ([show_summary], line 22): a row is kept by the filter exactly when
    its 取引 label is present and contains 信用 somewhere as a substring; a
    missing label (the text "nan" after [astype(str)]) is never kept. *)
Theorem is_margin_substring {Cell : Type} (r : Row Cell) :
  is_margin r = true <->
  exists pre post, torihiki r = Some (pre ++ shinyou ++ post)%string.
Proof.
  unfold is_margin, astype_str; destruct (torihiki r) as [s|].
  - rewrite str_contains_iff; split; intros [pre [post H]]; exists pre, post.
    + rewrite H; reflexivity.
    + injection H; auto.
  - split; [intros H; vm_compute in H; discriminate | intros [pre [post H]]; discriminate].
Qed.

(** ** Monthly rows and daily rows *)

Lemma zsum_members (F : list Trade -> Z) {K} (gs : list (K * list Trade)) :
  (forall a b, F (a ++ b) = F a + F b) -> F [] = 0 ->
  zsum (map (fun kg => F (snd kg)) gs) = F (members gs).
Proof.
  intros Happ Hnil; induction gs as [|[k g] gs IH]; simpl; [symmetry; exact Hnil|].
  unfold members in *; simpl; rewrite Happ, <- IH; reflexivity.
Qed.

Lemma members_filter_keys {K A} (key : A -> option K) (P : K -> bool) (gs : list (K * list A)) :
  (forall k g r, In (k, g) gs -> In r g -> key r = Some k) ->
  members (filter (fun kg => P (fst kg)) gs) =
  filter (fun r => match key r with Some k => P k | None => false end) (members gs).
Proof.
  induction gs as [|[k g] gs IH]; intros H; simpl; [reflexivity|].
  unfold members in *; simpl; rewrite filter_app.
  assert (Hg : forall r, In r g -> (match key r with Some k => P k | None => false end) = P k).
  { intros r Hr; rewrite (H k g r (or_introl eq_refl) Hr); reflexivity. }
  assert (IH' := IH (fun k' g' r Hin Hr => H k' g' r (or_intror Hin) Hr)).
  destruct (P k) eqn:E; simpl.
  - rewrite (filter_all _ g) by exact Hg.
    rewrite IH'; reflexivity.
  - rewrite (filter_none _ g) by exact Hg.
    exact IH'.
Qed.

Lemma filter_agg_groups {K} (P : K -> bool) (gs : list (K * list Trade)) :
  filter (fun ks => P (fst ks)) (agg_groups gs) = agg_groups (filter (fun kg => P (fst kg)) gs).
Proof.
  induction gs as [|[k g] gs IH]; simpl; [reflexivity|].
  destruct (P k); simpl; rewrite IH; reflexivity.
Qed.

Lemma month_of_dated (m : Month) (ts : list Trade) :
  filter (fun t => match hiduke t with Some d => in_month m d | None => false end)
         (filter (fun t => is_some (hiduke t)) ts) =
  filter (has_key month_cmp nengetsu m) ts.
Proof.
  induction ts as [|[[d|] p] ts IH]; simpl; [reflexivity| |exact IH].
  unfold has_key, in_month, nengetsu, hiduke in *; simpl in *.
  destruct (month_cmp (to_period_M d) m); rewrite IH; reflexivity.
Qed.

Lemma month_from_days (F : list Trade -> Z) (ts : list Trade) (m : Month) :
  (forall a b, F (a ++ b) = F a + F b) -> F [] = 0 ->
  (forall a b, Permutation a b -> F a = F b) ->
  zsum (map (fun kg => F (snd kg))
            (filter (fun kg => in_month m (fst kg)) (groupby date_cmp hiduke ts))) =
  F (filter (has_key month_cmp nengetsu m) ts).
Proof.
  intros Happ Hnil Hperm.
  rewrite (zsum_members F _ Happ Hnil).
  rewrite (members_filter_keys hiduke (in_month m)).
  - rewrite <- month_of_dated; apply Hperm, perm_filter, groupby_perm.
  - intros k g r Hin Hr.
    exact (groupby_member_key date_cmp hiduke date_cmp_eq date_cmp_antisym date_cmp_trans
             ts k g r Hin Hr).
Qed.

(** X7 ([show_summary], lines 37-57): the 総損益, 勝ち数 and 総取引数 of a
    row of the monthly table are the sums of the same columns over the rows
    of the daily table whose date falls in that month. *)
Theorem monthly_row_sums_daily_rows (ts : list Trade) m s :
  In (m, s) (monthly ts) ->
  let days := filter (fun ds => in_month m (fst ds)) (daily ts) in
  sou_soneki s = zsum (map (fun ds => sou_soneki (snd ds)) days) /\
  kachi_su s = zsum (map (fun ds => kachi_su (snd ds)) days) /\
  sou_torihiki_su s = zsum (map (fun ds => sou_torihiki_su (snd ds)) days).
Proof.
  intros Hin days.
  destruct (groupby_groups month_cmp nengetsu month_cmp_eq month_cmp_antisym month_cmp_trans ts)
    as [_ [Hg _]].
  unfold monthly in Hin; apply in_agg_groups in Hin as [g [Hin ->]].
  rewrite (Hg m g Hin); clear Hg Hin.
  unfold days, daily; rewrite (filter_agg_groups (in_month m)); unfold agg_groups.
  rewrite !map_map; cbn [snd].
  split; [|split].
  - symmetry; apply (month_from_days (fun g => sum_skipna (map t_pnl g))).
    + intros a b; rewrite map_app; apply sum_skipna_app.
    + reflexivity.
    + intros a b H; apply sum_skipna_perm, Permutation_map, H.
  - symmetry; apply (month_from_days (fun g => count_true kachi g)).
    + intros a b; unfold count_true; rewrite filter_app, length_app; lia.
    + reflexivity.
    + intros a b H; unfold count_true; f_equal; apply Permutation_length, perm_filter, H.
  - symmetry; apply (month_from_days (fun g => Z.of_nat (length g))).
    + intros a b; rewrite length_app; lia.
    + reflexivity.
    + intros a b H; f_equal; apply Permutation_length, H.
Qed.

(** ** 成績指標 with both winning and losing trades *)

Lemma total_profit_positive ts : filter kachi ts <> [] -> 0 < total_profit ts.
Proof.
  unfold total_profit; induction ts as [|t ts IH]; cbn [filter]; intros Hne; [congruence|].
  destruct (kachi t) eqn:E; [|auto].
  unfold kachi in E; destruct (t_pnl t) as [x|] eqn:P; [|discriminate].
  apply Z.ltb_lt in E; cbn [map sum_skipna]; rewrite P.
  destruct (filter kachi ts) as [|t0 l] eqn:F; [cbn [map sum_skipna]; lia|].
  specialize (IH ltac:(discriminate)); lia.
Qed.

Lemma count_true_pos {A} (p : A -> bool) xs : filter p xs <> [] -> 0 < count_true p xs.
Proof. unfold count_true; destruct (filter p xs); [congruence | simpl; lia]. Qed.

Lemma avg_profit_form ts :
  filter kachi ts <> [] ->
  avg_profit ts = Fin (QZ (total_profit ts) / QZ (count_true kachi ts)).
Proof.
  intros Hne; unfold avg_profit, mean_skipna; cbv zeta.
  rewrite (subset_count kachi kachi_present).
  pose proof (count_true_pos kachi ts Hne).
  destruct (count_true kachi ts =? 0) eqn:E; [apply Z.eqb_eq in E; lia | reflexivity].
Qed.

Lemma avg_loss_form ts :
  filter make ts <> [] ->
  avg_loss ts = Fin (QZ (total_loss ts) / QZ (count_true make ts)).
Proof.
  intros Hne; unfold avg_loss, mean_skipna; cbv zeta.
  rewrite (subset_count make make_present).
  pose proof (count_true_pos make ts Hne).
  destruct (count_true make ts =? 0) eqn:E; [apply Z.eqb_eq in E; lia | reflexivity].
Qed.

Lemma QZ_div_pos x n : 0 < x -> 0 < n -> (0 < QZ x / QZ n)%Q.
Proof.
  intros Hx Hn; destruct n as [|p|p]; try lia.
  unfold QZ, inject_Z, Qdiv, Qlt; simpl; lia.
Qed.

Lemma QZ_div_neg x n : x < 0 -> 0 < n -> (QZ x / QZ n < 0)%Q.
Proof.
  intros Hx Hn; destruct n as [|p|p]; try lia.
  unfold QZ, inject_Z, Qdiv, Qlt; simpl; lia.
Qed.

Lemma Qpos_neq q : (0 < q)%Q -> ~ (q == 0)%Q.
Proof. intros H E; apply (Qlt_not_eq 0 q H); symmetry; exact E. Qed.

Lemma Qabs_of_neg b : (b < 0)%Q -> (0 < Qabs b)%Q.
Proof.
  intros H; rewrite Qabs_neg by (apply Qlt_le_weak; exact H).
  exact (Qopp_lt_compat b 0 H).
Qed.

Lemma py_div_fin a b : ~ (b == 0)%Q -> py_div (Fin a) (Fin b) = Fin (a / b).
Proof.
  intros H; unfold py_div; destruct (Qeq_bool b 0) eqn:E; [|reflexivity].
  apply Qeq_bool_iff in E; contradiction.
Qed.

Lemma truthy_pos q : (0 < q)%Q -> truthy (Fin q) = true.
Proof.
  intros H; unfold truthy; destruct (Qeq_bool q 0) eqn:E; [|reflexivity].
  apply Qeq_bool_iff in E; exfalso; exact (Qpos_neq q H E).
Qed.

Lemma Qneg_neq q : (q < 0)%Q -> ~ (q == 0)%Q.
Proof. intros H; exact (Qlt_not_eq q 0 H). Qed.

Lemma truthy_nz q : ~ (q == 0)%Q -> truthy (Fin q) = true.
Proof.
  intros H; unfold truthy; destruct (Qeq_bool q 0) eqn:E; [|reflexivity].
  apply Qeq_bool_iff in E; contradiction.
Qed.

Lemma Qdiv_pos a b : (0 < a)%Q -> (0 < b)%Q -> (0 < a / b)%Q.
Proof. intros Ha Hb; apply Qmult_lt_0_compat; [exact Ha | apply Qinv_lt_0_compat; exact Hb]. Qed.

Lemma profit_factor_form ts :
  filter make ts <> [] ->
  profit_factor ts = Some (Fin (QZ (total_profit ts) / QZ (Z.abs (total_loss ts)))).
Proof.
  intros Hne; pose proof (total_loss_negative ts Hne) as HL.
  unfold profit_factor; cbv zeta.
  destruct (total_loss ts =? 0) eqn:E; [apply Z.eqb_eq in E; lia|]; cbn [negb].
  rewrite py_div_fin; [reflexivity|].
  apply Qpos_neq; unfold QZ, Qlt; simpl; lia.
Qed.

(** Every non-missing P&L is a win, a loss or zero. *)
Lemma net_split ts : sum_skipna (map t_pnl ts) = total_profit ts + total_loss ts.
Proof.
  unfold total_profit, total_loss; induction ts as [|t ts IH]; [reflexivity|].
  cbn [map filter]; destruct (t_pnl t) as [x|] eqn:P.
  - cbn [sum_skipna].
    destruct (kachi t) eqn:E1, (make t) eqn:E2; cbn [map sum_skipna]; rewrite ?P;
      unfold kachi, make in E1, E2; rewrite P in E1, E2;
      rewrite ?Z.ltb_lt, ?Z.ltb_ge in E1, E2; lia.
  - assert (E1 : kachi t = false) by (unfold kachi; rewrite P; reflexivity).
    assert (E2 : make t = false) by (unfold make; rewrite P; reflexivity).
    rewrite E1, E2; cbn [sum_skipna]; exact IH.
Qed.

Lemma Qdiv_vs_one x L :
  0 < L -> ((1 < QZ x / QZ L)%Q <-> L < x) /\ ((QZ x / QZ L == 1)%Q <-> x = L).
Proof.
  intros HL; destruct L as [|p|p]; try lia.
  unfold QZ, inject_Z, Qdiv, Qlt, Qeq; simpl; split; split; intros; lia.
Qed.

Section Ratios.
Variable Cell : Type.
Variable to_datetime : Cell -> option Date.
Variable to_numeric : Cell -> option Z.

Local Abbreviation show := (show_summary to_datetime to_numeric).
Local Abbreviation data := (filtered to_datetime to_numeric).

Lemma nonempty_of_witness (p : Trade -> bool) ts :
  (exists t, In t ts /\ p t = true) -> filter p ts <> [].
Proof.
  intros [t [Ht Hp]] E.
  assert (H : In t (filter p ts)) by (apply filter_In; auto).
  rewrite E in H; exact H.
Qed.

(** X8 ([show_summary], lines 91-104): when the filtered table has at
    least one winning and at least one losing trade, the payoff ratio and
    the profit factor are both finite positive numbers, and both are shown
    as numbers (not 計算不可). *)
Theorem ratios_with_wins_and_losses (df : list (Row Cell)) :
  (exists t, In t (data df) /\ kachi t = true) ->
  (exists t, In t (data df) /\ make t = true) ->
  exists p f,
    r_payoff (show df) = Some (Fin p) /\ r_payoff_display (show df) = Shown (Fin p) /\
    (0 < p)%Q /\
    r_profit_factor (show df) = Some (Fin f) /\
    r_profit_factor_display (show df) = Shown (Fin f) /\ (0 < f)%Q.
Proof.
  intros Hw Hl.
  apply nonempty_of_witness in Hw; apply nonempty_of_witness in Hl.
  unfold show_summary, summarize;
    cbn [r_payoff r_payoff_display r_profit_factor r_profit_factor_display].
  set (ts := data df) in *.
  pose proof (total_profit_positive ts Hw) as HP.
  pose proof (total_loss_negative ts Hl) as HL.
  pose proof (count_true_pos kachi ts Hw) as Hcw.
  pose proof (count_true_pos make ts Hl) as Hcl.
  set (a := (QZ (total_profit ts) / QZ (count_true kachi ts))%Q).
  set (b := (QZ (total_loss ts) / QZ (count_true make ts))%Q).
  assert (Ha : (0 < a)%Q) by (apply QZ_div_pos; assumption).
  assert (Hb : (b < 0)%Q) by (apply QZ_div_neg; assumption).
  assert (Hab : (0 < Qabs b)%Q) by (apply Qabs_of_neg; exact Hb).
  set (f := (QZ (total_profit ts) / QZ (Z.abs (total_loss ts)))%Q).
  assert (Hf : (0 < f)%Q) by (apply QZ_div_pos; lia).
  assert (Hpay : payoff_ratio ts = Some (Fin (a / Qabs b))).
  { unfold payoff_ratio; rewrite avg_profit_form, avg_loss_form by assumption.
    fold a b; rewrite (truthy_nz b (Qneg_neq b Hb)); cbn [py_abs].
    rewrite py_div_fin by (apply Qpos_neq; exact Hab); reflexivity. }
  assert (Hp : (0 < a / Qabs b)%Q) by (apply Qdiv_pos; assumption).
  exists (a / Qabs b)%Q, f.
  rewrite Hpay, (profit_factor_form ts Hl); fold f; cbn [metric_display].
  rewrite (truthy_pos _ Hp), (truthy_pos _ Hf).
  repeat split; assumption.
Qed.

(** X9 ([show_summary], lines 94-97): when the filtered table has a losing
    trade, the profit factor is a number f, and f > 1 exactly when the net
    P&L of the filtered table (the sum of its non-missing P&L values) is
    positive, f = 1 exactly when the net P&L is zero. *)
Theorem profit_factor_vs_net (df : list (Row Cell)) :
  (exists t, In t (data df) /\ make t = true) ->
  exists f, r_profit_factor (show df) = Some (Fin f) /\
    ((1 < f)%Q <-> 0 < sum_skipna (map t_pnl (data df))) /\
    ((f == 1)%Q <-> sum_skipna (map t_pnl (data df)) = 0).
Proof.
  intros Hl; apply nonempty_of_witness in Hl.
  unfold show_summary, summarize; cbn [r_profit_factor].
  set (ts := data df) in *.
  pose proof (total_loss_negative ts Hl) as HL.
  rewrite (profit_factor_form ts Hl), net_split.
  eexists; split; [reflexivity|].
  destruct (Qdiv_vs_one (total_profit ts) (Z.abs (total_loss ts)) ltac:(lia)) as [H1 H2].
  rewrite H1, H2; split; split; intros; lia.
Qed.
End Ratios.

(** ** Loading the uploaded file *)

Lemma find_header_from_shift n lines :
  find_header_from n lines = option_map (Nat.add n) (find_header lines).
Proof.
  unfold find_header; revert n; induction lines as [|l ls IH]; intros n;
    cbn [find_header_from]; [reflexivity|].
  destruct (str_contains yakujoubi_label l); [cbn [option_map]; rewrite Nat.add_0_r; reflexivity|].
  rewrite (IH (S n)), (IH 1%nat).
  destruct (find_header_from 0 ls); cbn [option_map]; [|reflexivity].
  rewrite Nat.add_assoc, Nat.add_1_r; reflexivity.
Qed.

Lemma find_header_cons l ls :
  find_header (l :: ls) =
  if str_contains yakujoubi_label l then Some 0%nat else option_map S (find_header ls).
Proof. unfold find_header at 1; simpl; rewrite find_header_from_shift; reflexivity. Qed.

Lemma find_header_spec (lines : list string) :
  (forall i, find_header lines = Some i <->
     (exists l, nth_error lines i = Some l /\ str_contains yakujoubi_label l = true) /\
     (forall j l, (j < i)%nat -> nth_error lines j = Some l ->
        str_contains yakujoubi_label l = false)) /\
  (find_header lines = None <->
     forall l, In l lines -> str_contains yakujoubi_label l = false).
Proof.
  induction lines as [|l ls [IHs IHn]].
  - split.
    + intros i; split; [discriminate|]; intros [[l [Hl _]] _].
      destruct i; discriminate.
    + split; [intros _ l []|reflexivity].
  - rewrite find_header_cons; destruct (str_contains yakujoubi_label l) eqn:E; split.
    + intros i; split.
      * intros H; injection H as <-; split; [exists l; auto|].
        intros j l' Hj; lia.
      * intros [_ Hfirst]; destruct i as [|i]; [reflexivity|].
        rewrite (Hfirst 0%nat l ltac:(lia) eq_refl) in E; discriminate.
    + split; [discriminate|]; intros H; rewrite (H l (or_introl eq_refl)) in E; discriminate.
    + intros i; destruct i as [|i].
      * split; [destruct (find_header ls); discriminate|].
        intros [[l' [Hl' Hc]] _]; simpl in Hl'; injection Hl' as <-; congruence.
      * split.
        -- intros H.
           assert (F : find_header ls = Some i)
             by (destruct (find_header ls) as [i'|]; cbn [option_map] in H;
                 [injection H as ->; reflexivity | discriminate]).
           apply IHs in F as [Hex Hfirst]; split; [exact Hex|].
           intros [|j] l' Hj Hl'; [simpl in Hl'; injection Hl' as <-; exact E|].
           apply (Hfirst j l'); [lia | exact Hl'].
        -- intros [Hex Hfirst].
           assert (F : find_header ls = Some i).
           { apply IHs; split; [exact Hex|].
             intros j l' Hj Hl'; apply (Hfirst (S j) l'); [lia | exact Hl']. }
           rewrite F; reflexivity.
    + split.
      * intros H l' [<-|Hl']; [exact E|].
        assert (F : find_header ls = None)
          by (destruct (find_header ls); [discriminate | reflexivity]).
        exact (proj1 IHn F l' Hl').
      * intros H.
        assert (F : find_header ls = None)
          by (apply IHn; intros l' Hl'; apply H; right; exact Hl').
        rewrite F; reflexivity.
Qed.

Section UploadFacts.
Variable Content : Type.
Variable decode : string -> Content -> option string.
Variable splitlines : string -> list string.
Variable Frame : Type.
Variable read_csv : string -> nat -> Frame.

Local Abbreviation decode_lines' := (decode_lines Content decode splitlines).
Local Abbreviation upload' := (upload Content decode splitlines Frame read_csv).

Lemma decode_lines_spec (encs : list string) (c : Content) :
  (forall lines, decode_lines' encs c = Some lines <->
     exists pre enc post text, encs = pre ++ enc :: post /\
       (forall e, In e pre -> decode e c = None) /\
       decode enc c = Some text /\ lines = splitlines text) /\
  (decode_lines' encs c = None <-> forall e, In e encs -> decode e c = None).
Proof.
  induction encs as [|enc encs [IHs IHn]]; cbn [decode_lines].
  - split.
    + intros lines; split; [discriminate|].
      intros [pre [enc [post [text [E _]]]]]; destruct pre; discriminate.
    + split; [intros _ e []|reflexivity].
  - destruct (decode enc c) as [text|] eqn:D; split.
    + intros lines; split.
      * intros H; injection H as <-; exists [], enc, encs, text.
        split; [reflexivity|]; split; [intros e []|]; auto.
      * intros [pre [enc' [post [text' [E [Hpre [Hd ->]]]]]]].
        destruct pre as [|e0 pre]; cbn [app] in E; injection E as E1 E2; subst.
        -- rewrite D in Hd; injection Hd as ->; reflexivity.
        -- rewrite (Hpre e0 (or_introl eq_refl)) in D; discriminate.
    + split; [discriminate|]; intros H; rewrite (H enc (or_introl eq_refl)) in D; discriminate.
    + intros lines; rewrite IHs; split.
      * intros [pre [enc' [post [text [E [Hpre Hd]]]]]].
        exists (enc :: pre), enc', post, text; split; [cbn [app]; f_equal; exact E|]; split; [|exact Hd].
        intros e [<-|He]; [exact D | exact (Hpre e He)].
      * intros [pre [enc' [post [text [E [Hpre [Hd Hl]]]]]]].
        destruct pre as [|e0 pre]; cbn [app] in E; injection E as E1 E2.
        -- subst enc'; rewrite D in Hd; discriminate.
        -- exists pre, enc', post, text; split; [exact E2|]; split; [|auto].
           intros e He; apply Hpre; right; exact He.
    + rewrite IHn; split.
      * intros H e [<-|He]; [exact D | exact (H e He)].
      * intros H e He; apply H; right; exact He.
Qed.

(** X10 ([app.py], lines 42-50): the header search returns the index of
    the first line that contains 約定日: it returns [Some i] exactly when
    line i contains 約定日 and no earlier line does, and [None] exactly when
    no line contains it. *)
Theorem header_row_is_first_match (lines : list string) :
  (forall i, find_header lines = Some i <->
     (exists l, nth_error lines i = Some l /\ str_contains yakujoubi_label l = true) /\
     (forall j l, (j < i)%nat -> nth_error lines j = Some l ->
        str_contains yakujoubi_label l = false)) /\
  (find_header lines = None <->
     forall l, In l lines -> str_contains yakujoubi_label l = false).
Proof. exact (find_header_spec lines). Qed.

(** X11 ([app.py], lines 31-39): the decoding loop yields the lines of the
    text decoded with the first encoding of the list that decodes the
    upload (every encoding before it failed), and yields nothing exactly
    when every encoding of the list fails. *)
Theorem decode_first_success (encs : list string) (c : Content) :
  (forall lines, decode_lines Content decode splitlines encs c = Some lines <->
     exists pre enc post text, encs = pre ++ enc :: post /\
       (forall e, In e pre -> decode e c = None) /\
       decode enc c = Some text /\ lines = splitlines text) /\
  (decode_lines Content decode splitlines encs c = None <-> forall e, In e encs -> decode e c = None).
Proof. exact (decode_lines_spec encs c). Qed.

(** X12 ([app.py], lines 27-56): the page stops with the encoding error
    exactly when none of utf-8, cp932 and shift_jis decodes the upload; it
    stops with the header error exactly when the upload decodes but no line
    contains 約定日; otherwise the table is read from the decoded lines
    skipping [n - 1] lines, where the reported row number [n] (1-based) is
    that of the first line containing 約定日. *)
Theorem upload_outcome (c : Content) :
  (upload' c = DecodeFailed <-> forall e, In e encodings -> decode e c = None) /\
  (upload' c = HeaderNotFound <->
     exists lines, decode_lines' encodings c = Some lines /\
       forall l, In l lines -> str_contains yakujoubi_label l = false) /\
  (forall lines n df, upload' c = Loaded lines n df ->
     decode_lines' encodings c = Some lines /\ (1 <= n)%nat /\
     df = read_csv (join_lines lines) (n - 1) /\
     (exists l, nth_error lines (n - 1) = Some l /\ str_contains yakujoubi_label l = true) /\
     (forall j l, (j < n - 1)%nat -> nth_error lines j = Some l ->
        str_contains yakujoubi_label l = false)).
Proof.
  destruct (decode_lines_spec encodings c) as [_ Hnone].
  unfold upload; destruct (decode_lines' encodings c) as [lines|] eqn:D.
  - assert (Hd : ~ forall e, In e encodings -> decode e c = None)
      by (intros H; apply Hnone in H; discriminate).
    destruct (find_header_spec lines) as [Hsome Hnil].
    destruct (find_header lines) as [i|] eqn:F.
    + split; [split; [discriminate | intros H; contradiction]|].
      split.
      * split; [discriminate|]; intros [lines' [D' Hn]].
        injection D' as <-; apply Hnil in Hn; discriminate.
      * intros lines' n df H; injection H as <- <- <-.
        replace (i + 1 - 1)%nat with i by lia.
        destruct (proj1 (Hsome i) eq_refl) as [Hex Hfirst].
        repeat split; auto; lia.
    + split; [split; [discriminate | intros H; contradiction]|].
      split.
      * split; [|reflexivity]; intros _; exists lines; split; [reflexivity|].
        apply Hnil; reflexivity.
      * intros lines' n df H; discriminate.
  - split; [split; [intros _; apply Hnone; reflexivity | reflexivity]|].
    split.
    + split; [discriminate|]; intros [lines [D' _]]; discriminate.
    + intros lines n df H; discriminate.
Qed.
End UploadFacts.

(** ** Instances of the theorems above on concrete tables *)

Lemma total_styles_monotone_witness :
  exists a b,
    option_map style_alpha (nth_error (total_styles (fun _ => None) [1000; -3000; 250]) 0) =
      Some (Some (Fin a)) /\
    option_map style_alpha (nth_error (total_styles (fun _ => None) [1000; -3000; 250]) 1) =
      Some (Some (Fin b)) /\
    (a <= b)%Q.
Proof.
  apply (total_styles_monotone (fun _ => None) [1000; -3000; 250] 0 1 1000 (-3000));
    [reflexivity | reflexivity | lia | simpl; lia].
Defined.

Lemma monthly_row_sums_daily_rows_witness :
  In (mkMonth 2025 1, agg (firstn 3 sample_trades)) (monthly sample_trades) /\
  let days := filter (fun ds => in_month (mkMonth 2025 1) (fst ds)) (daily sample_trades) in
  sou_soneki (agg (firstn 3 sample_trades)) = zsum (map (fun ds => sou_soneki (snd ds)) days) /\
  kachi_su (agg (firstn 3 sample_trades)) = zsum (map (fun ds => kachi_su (snd ds)) days) /\
  sou_torihiki_su (agg (firstn 3 sample_trades)) =
    zsum (map (fun ds => sou_torihiki_su (snd ds)) days).
Proof.
  assert (H : In (mkMonth 2025 1, agg (firstn 3 sample_trades)) (monthly sample_trades))
    by (vm_compute; left; reflexivity).
  exact (conj H (monthly_row_sums_daily_rows sample_trades _ _ H)).
Defined.

Lemma ratios_with_wins_and_losses_witness :
  (exists t, In t (filtered sample_to_datetime sample_to_numeric example_table) /\ kachi t = true) /\
  (exists t, In t (filtered sample_to_datetime sample_to_numeric example_table) /\ make t = true) /\
  exists p f,
    r_payoff (sample_show_summary example_table) = Some (Fin p) /\
    r_payoff_display (sample_show_summary example_table) = Shown (Fin p) /\ (0 < p)%Q /\
    r_profit_factor (sample_show_summary example_table) = Some (Fin f) /\
    r_profit_factor_display (sample_show_summary example_table) = Shown (Fin f) /\ (0 < f)%Q.
Proof.
  assert (H1 : exists t, In t (filtered sample_to_datetime sample_to_numeric example_table)
                         /\ kachi t = true).
  { eexists; split; [vm_compute; left; reflexivity | vm_compute; reflexivity]. }
  assert (H2 : exists t, In t (filtered sample_to_datetime sample_to_numeric example_table)
                         /\ make t = true).
  { eexists; split; [vm_compute; right; left; reflexivity | vm_compute; reflexivity]. }
  exact (conj H1 (conj H2 (ratios_with_wins_and_losses string sample_to_datetime
                             sample_to_numeric example_table H1 H2))).
Defined.

Lemma profit_factor_vs_net_witness :
  (exists t, In t (filtered sample_to_datetime sample_to_numeric example_table) /\ make t = true) /\
  exists f, r_profit_factor (sample_show_summary example_table) = Some (Fin f) /\
    ((1 < f)%Q <->
       0 < sum_skipna (map t_pnl (filtered sample_to_datetime sample_to_numeric example_table))) /\
    ((f == 1)%Q <->
       sum_skipna (map t_pnl (filtered sample_to_datetime sample_to_numeric example_table)) = 0).
Proof.
  assert (H : exists t, In t (filtered sample_to_datetime sample_to_numeric example_table)
                        /\ make t = true).
  { eexists; split; [vm_compute; right; left; reflexivity | vm_compute; reflexivity]. }
  exact (conj H (profit_factor_vs_net string sample_to_datetime sample_to_numeric
                   example_table H)).
Defined.
